(** * The RAML client generator facade (plugins/raml-client-generator/index.js)

    A shallow embedding of the [API] object that the plugin exposes to
    notebook cells: [createClient], [set], [get], [unset] and
    [authenticate].

    JavaScript objects live in a store and are passed around by reference,
    so that aliasing of the configuration object is visible.  Every call
    from the facade to a collaborator (sandbox, middleware bus, RAML parser,
    client generator, window installer, authenticator, completion callback)
    is logged, in order, in a trace.

    Scope of the model.  The store holds the own properties of every
    object, each writable, enumerable and configurable; no object is
    frozen.  An object of the store inherits from [Object.prototype], a
    function from [Function.prototype], and these two are the built-in
    ones as ECMAScript has them (Annex B included), which nothing changes.
    A write to ['__proto__'] goes to the accessor of [Object.prototype]:
    it is dropped for a primitive value, and what it does for an object or
    [null] (a change of prototype, or a [TypeError] when that would close
    a cycle) is not represented; the statements about reading back what
    was written leave that key out.  Primitive values carry no properties
    (a string's [length] and indices are left out), an [Error] is an
    immutable value carrying its message, and numbers are the integers.
    Underscore is version 1.6.0, the one package.json pins.  Of the RAML
    parser only this is fixed: it reads the main file first and rejects
    with the reader's own error when that read fails; which includes it
    reads next, how many at once, and the error it reports for a failed
    include are its own and stay parameters. *)

From Stdlib Require Import Ascii.
From stdpp Require Import gmap strings list fin_maps pretty sorting.

Open Scope Z_scope.

(** ** Values and the object store *)

Abbreviation loc := positive (only parsing).

Inductive value :=
| VUndefined
| VNull
| VBool (b : bool)
| VNumber (n : Z)
| VString (s : string)
| VError (message : string)      (* new Error(message) *)
| VObject (l : loc)              (* a reference to a plain object *)
| VFunction (l : loc)            (* a reference to a function object *)
| VBuiltin (name : string).      (* a built-in of the engine, by its name *)

#[global] Instance value_eq_dec : EqDecision value.
Proof. solve_decision. Defined.

#[global] Instance value_inhabited : Inhabited value := populate VUndefined.

(** The own properties of one object, and the store of all objects. *)
Abbreviation props := (gmap string value) (only parsing).
Abbreviation heap := (gmap positive (gmap string value)) (only parsing).

(** The argument of [App._executeContext.timeout]. *)
Inductive duration :=
| Infinity
| Millis (ms : Z).

#[global] Instance duration_eq_dec : EqDecision duration.
Proof. solve_decision. Defined.

(** How a call ends: with a value, or with a thrown one. *)
Inductive completion (A : Type) :=
| Normal (a : A)
| Throw (e : value).
Arguments Normal {A} a.
Arguments Throw {A} e.

(** What the ajax middleware hands to its callback: [(err, xhr)]. *)
Record ajax_reply := AjaxReply {
  reply_err : value;
  xhr_status : Z;
  xhr_responseText : string
}.

(** The four arguments the authenticator passes to its callback. *)
Record cb_args := CbArgs {
  cb_err : value;
  cb_scheme : value;
  cb_options : value;
  cb_tokens : value
}.

(** Calls that leave the facade, with what came back. *)
Inductive event :=
| EvTimeout (d : duration)
| EvAsync (handle : value)
| EvAjax (url : string) (proxy : value) (headers : list (string * string))
         (reply : option ajax_reply)
| EvGenerate (data config : value) (result : completion value)
| EvInstall (path : list string) (client : value) (result : completion unit)
| EvAuthenticate (securedBy securitySchemes method options : value)
                 (callbacks : list cb_args)
| EvCall (f : value) (args : list value).

Record state := State {
  heap_of : heap;
  trace : list event
}.

(** ** A state and exception monad *)

Definition M (A : Type) : Type := state → completion A * state.

Definition ret {A} (a : A) : M A := λ st, (Normal a, st).

Definition throw {A} (e : value) : M A := λ st, (Throw e, st).

Definition bind {A B} (m : M A) (f : A → M B) : M B :=
  λ st, match m st with
        | (Normal a, st') => f a st'
        | (Throw e, st') => (Throw e, st')
        end.

Notation "'let*' x ':=' m 'in' k" := (bind m (λ x, k))
  (at level 10, x name, m at level 100, k at level 200,
   format "'[v' 'let*'  x  :=  m  'in'  '/' k ']'").
Notation "m ;;; k" := (bind m (λ _, k))
  (at level 100, right associativity).

(** [try { body } catch (e) { handler e }] *)
Definition try_catch {A} (body : M A) (handler : value → M A) : M A :=
  λ st, match body st with
        | (Normal a, st') => (Normal a, st')
        | (Throw e, st') => handler e st'
        end.

(** Runs [m] for its effects and drops the way it ended. *)
Definition settle_quietly {A} (m : M A) : M unit :=
  λ st, (Normal tt, (m st).2).

Definition get_heap : M (heap) :=
  λ st, (Normal (heap_of st), st).

Definition put_heap (h : heap) : M unit :=
  λ st, (Normal tt, State h (trace st)).

Definition emit (e : event) : M unit :=
  λ st, (Normal tt, State (heap_of st) (trace st ++ [e])).

Fixpoint for_each {A} (xs : list A) (body : A → M unit) : M unit :=
  match xs with
  | [] => ret tt
  | x :: xs' => body x ;;; for_each xs' body
  end.

(** ** Language primitives *)

Definition TypeError : value := VError "TypeError".

(** ToBoolean *)
Definition truthy (v : value) : bool :=
  match v with
  | VUndefined | VNull => false
  | VBool b => b
  | VNumber n => negb (n =? 0)
  | VString s => negb (String.eqb s "")
  | VError _ | VObject _ | VFunction _ | VBuiltin _ => true
  end.

(** [v == null] *)
Definition nullish (v : value) : bool :=
  match v with VUndefined | VNull => true | _ => false end.

(** [typeof v === 'function']; of the built-ins only [Object.prototype]
    is not a function. *)
Definition is_function (v : value) : bool :=
  match v with
  | VFunction _ => true
  | VBuiltin name => negb (String.eqb name "Object.prototype")
  | _ => false
  end.

(** The property name a value denotes in [o[v]].  Objects are rendered as
    by the default [toString]. *)
Definition to_key (v : value) : string :=
  match v with
  | VUndefined => "undefined"
  | VNull => "null"
  | VBool true => "true"
  | VBool false => "false"
  | VNumber n => pretty n
  | VString s => s
  | VError m => if String.eqb m "" then "Error" else "Error: " +:+ m
  | VObject _ | VFunction _ | VBuiltin _ => "[object Object]"
  end.

(** [arguments[i]] *)
Definition arg (i : nat) (arguments : list value) : value :=
  nth i arguments VUndefined.

(** [{}] *)
Definition new_object : M value :=
  let* h := get_heap in
  let l := fresh (dom h) in
  put_heap (<[l := ∅]> h) ;;;
  ret (VObject l).

(** The names every object inherits from [Object.prototype], the
    accessor ['__proto__'] apart. *)
Definition Object_prototype_names : list string :=
  ["constructor"; "toString"; "toLocaleString"; "valueOf"; "hasOwnProperty";
   "isPrototypeOf"; "propertyIsEnumerable"; "__defineGetter__";
   "__defineSetter__"; "__lookupGetter__"; "__lookupSetter__"].

(** [Object.prototype[k]] *)
Definition Object_prototype (k : string) : value :=
  if String.eqb k "constructor" then VBuiltin "Object"
  else if bool_decide (k ∈ Object_prototype_names) then
    VBuiltin ("Object.prototype." +:+ k)
  else VUndefined.

(** [Function.prototype[k]] *)
Definition Function_prototype (k : string) : value :=
  if String.eqb k "constructor" then VBuiltin "Function"
  else if bool_decide (k ∈ ["apply"; "bind"; "call"; "toString"]) then
    VBuiltin ("Function.prototype." +:+ k)
  else Object_prototype k.

(** What [o[k]] is when [o] has no property [k] of its own: the property
    of its prototype, where ['__proto__'] reads the prototype itself. *)
Definition inherited (o : value) (k : string) : value :=
  match o with
  | VObject _ =>
      if String.eqb k "__proto__" then VBuiltin "Object.prototype"
      else Object_prototype k
  | VFunction _ =>
      if String.eqb k "__proto__" then VBuiltin "Function.prototype"
      else Function_prototype k
  | VBuiltin name =>
      if String.eqb name "Object.prototype" then
        if String.eqb k "__proto__" then VNull else Object_prototype k
      else if String.eqb name "Function.prototype" then
        if String.eqb k "__proto__" then VBuiltin "Object.prototype"
        else Function_prototype k
      else
        if String.eqb k "__proto__" then VBuiltin "Function.prototype"
        else Function_prototype k
  | _ => VUndefined
  end.

(** [o[k]] *)
Definition get_prop (o : value) (k : string) : M value :=
  match o with
  | VUndefined | VNull => throw TypeError
  | VObject l | VFunction l =>
      let* h := get_heap in
      ret (default (inherited o k) ((h !!! l) !! k))
  | VBuiltin _ => ret (inherited o k)
  | VError m => ret (if String.eqb k "message" then VString m else VUndefined)
  | VBool _ | VNumber _ | VString _ => ret VUndefined
  end.

(** [k in o], for an object [o] *)
Definition has_prop (o : value) (k : string) : M bool :=
  match o with
  | VObject l | VFunction l =>
      let* h := get_heap in
      ret (bool_decide (is_Some ((h !!! l) !! k)) ||
           negb (bool_decide (inherited o k = VUndefined)))
  | VBuiltin _ => ret (negb (bool_decide (inherited o k = VUndefined)))
  | _ => ret false
  end.

(** [o[k] = v]; outside strict mode a write to a primitive is dropped.  On
    an object without a ['__proto__'] property of its own, a write to that
    name is taken by the accessor it inherits and adds no property. *)
Definition set_prop (o : value) (k : string) (v : value) : M unit :=
  match o with
  | VUndefined | VNull => throw TypeError
  | VObject l | VFunction l =>
      let* h := get_heap in
      if String.eqb k "__proto__" &&
         bool_decide ((h !!! l) !! "__proto__" = None)
      then ret tt
      else put_heap (<[l := <[k := v]> (h !!! l)]> h)
  | VError _ | VBool _ | VNumber _ | VString _ | VBuiltin _ => ret tt
  end.

(** [delete o[k]]: [true] whether or not the property was there. *)
Definition delete_prop (o : value) (k : string) : M value :=
  match o with
  | VUndefined | VNull => throw TypeError
  | VObject l | VFunction l =>
      let* h := get_heap in
      put_heap (<[l := delete k (h !!! l)]> h) ;;;
      ret (VBool true)
  | VError _ | VBool _ | VNumber _ | VString _ | VBuiltin _ =>
      ret (VBool true)
  end.

(** The names [for (prop in o)] and [_.keys(o)] visit, taken when the loop
    starts. *)
Definition own_keys (o : value) : M (list string) :=
  match o with
  | VObject l | VFunction l =>
      let* h := get_heap in
      ret ((map_to_list (h !!! l)).*1)
  | _ => ret []
  end.

(** [f(args)] for a callback handed in from outside: the call is logged. *)
Definition call (f : value) (args : list value) : M value :=
  if is_function f then emit (EvCall f args) ;;; ret VUndefined
  else throw TypeError.

(** ** Underscore *)

(** [_.isString] *)
Definition _isString (v : value) : bool :=
  match v with VString _ => true | _ => false end.

(** [_.extend(obj, source)]: copies every property of a truthy [source]
    onto [obj] and returns [obj]. *)
Definition _extend (obj source : value) : M value :=
  (if truthy source then
     let* ks := own_keys source in
     for_each ks (λ prop, let* v := get_prop source prop in set_prop obj prop v)
   else ret tt) ;;;
  ret obj.

(** [Array.prototype.forEach] *)
Definition nativeForEach : value := VBuiltin "Array.prototype.forEach".

(** ToUint32, on a number or a boolean; other values count as [0]. *)
Definition to_uint32 (v : value) : Z :=
  match v with
  | VNumber n => n `mod` 2 ^ 32
  | VBool true => 1
  | _ => 0
  end.

(** [Array.prototype.forEach.call(obj, iterator)]: the indices below
    [obj.length] that [obj] has, in order. *)
Definition Array_forEach (obj : value)
    (iterator : value → value → value → M unit) : M unit :=
  let* length := get_prop obj "length" in
  for_each (seqZ 0 (to_uint32 length))
    (λ i, let* present := has_prop obj (pretty i) in
          if (present : bool) then
            let* v := get_prop obj (pretty i) in
            iterator v (VNumber i) obj
          else ret tt).

(** [_.each(obj, iterator)] calls [iterator(value, key, obj)]: nothing for
    [null] and [undefined]; through the native [forEach] when [obj] has
    it; on the indices [0 .. obj.length - 1] when [obj.length] is a number;
    else on every key of [obj]. *)
Definition _each (obj : value) (iterator : value → value → value → M unit)
  : M unit :=
  if nullish obj then ret tt
  else
    let* forEach := get_prop obj "forEach" in
    if bool_decide (forEach = nativeForEach) then
      Array_forEach obj iterator
    else
      let* length := get_prop obj "length" in
      match length with
      | VNumber n =>
          for_each (seqZ 0 n)
            (λ i, let* v := get_prop obj (pretty i) in
                  iterator v (VNumber i) obj)
      | _ =>
          let* keys := own_keys obj in
          for_each keys
            (λ key, let* v := get_prop obj key in iterator v (VString key) obj)
      end.

(** [name.split('.')] *)
Fixpoint split_dots (s : string) : list string :=
  match s with
  | EmptyString => [""]
  | String c rest =>
      if Ascii.eqb c "."%char then "" :: split_dots rest
      else match split_dots rest with
           | piece :: pieces => String c piece :: pieces
           | [] => [String c ""]
           end
  end.

(** ** The collaborators *)

(** The state a promise ends in; [Pending] when it never settles. *)
Inductive settled (A : Type) :=
| Fulfilled (a : A)
| Rejected (reason : value)
| Pending.
Arguments Fulfilled {A} a.
Arguments Rejected {A} reason.
Arguments Pending {A}.

(** What the RAML parser does once it has the text of the main file: it
    has the document, it finds the document malformed, or it needs more
    files (includes) read first.  It asks for these together; with their
    texts it goes on, and when a read fails it rejects with an error of its
    own making, [failed], which sees how every read ended. *)
Inductive loading :=
| Parsed (data : value)
| Malformed (err : value)
| ReadFiles (urls : list string)
            (failed : list (settled string) → value)
            (k : list string → loading).

(** The host application [App] and the modules index.js requires.  None of
    them is part of the plugin: each is a parameter of the model. *)
Record host := Host {
  (* the handle [App._executeContext.async()] returns *)
  executeContext_async : positive;
  (* [App._executeWindow] *)
  executeWindow : value;
  (* [App.middleware.trigger('ajax', {url, proxy, headers}, callback)]:
     the [(err, xhr)] the callback receives, [None] if it is never called *)
  middleware_ajax : string → value → option ajax_reply;
  (* raml-parser, applied to the URL and the text of the main file *)
  raml_parse : string → string → loading;
  (* [require('./client-generator')] *)
  clientGenerator :
    value → value → heap →
    completion value * heap;
  (* [require('../../lib/from-path')] *)
  fromPath :
    value → list string → value → heap →
    completion unit * heap;
  (* [require('./authenticate')]: the objects it allocates, the calls it
     makes to the callback it is given, and how the call itself ends *)
  authenticate :
    value → value → value → value → heap →
    heap * list cb_args * completion value
}.

Section Collaborators.

Context (App : host).

(** [App._executeContext.timeout(d)] *)
Definition executeContext_timeout (d : duration) : M unit :=
  emit (EvTimeout d).

(** [App._executeContext.async()] *)
Definition executeContext_async_call : M value :=
  let handle := VFunction (executeContext_async App) in
  emit (EvAsync handle) ;;;
  ret handle.

(** [clientGenerator(data, config)] *)
Definition clientGenerator_call (data config : value) : M value :=
  λ st,
    let '(r, h) := clientGenerator App data config (heap_of st) in
    (r, State h (trace st ++ [EvGenerate data config r])).

(** [fromPath(App._executeWindow, path, client)] *)
Definition fromPath_call (path : list string) (client : value) : M unit :=
  λ st,
    let '(r, h) := fromPath App (executeWindow App) path client (heap_of st) in
    (r, State h (trace st ++ [EvInstall path client r])).

(** [authenticate(securedBy, securitySchemes, method, options, cb)] *)
Definition authenticate_call (securedBy securitySchemes method options : value)
    (cb : cb_args → M value) : M value :=
  λ st,
    let '(h, callbacks, r) :=
      authenticate App securedBy securitySchemes method options (heap_of st) in
    let st1 :=
      State h (trace st ++
               [EvAuthenticate securedBy securitySchemes method options
                               callbacks]) in
    (r, (for_each callbacks (λ a, settle_quietly (cb a)) st1).2).

(** [createReader(config)]: the function handed to [ramlParser.FileReader],
    with the promise it returns. *)
Definition createReader (config : value) (url : string) : M (settled string) :=
  let* proxy := get_prop config "proxy" in
  let reply := middleware_ajax App url proxy in
  emit (EvAjax url proxy [("Accept", "application/raml+yaml, */*")] reply) ;;;
  match reply with
  | None => ret Pending
  | Some xhr =>
      if truthy (reply_err xhr) then
        ret (Rejected (reply_err xhr))
      else if negb (xhr_status xhr `div` 100 =? 2) then
        ret (Rejected
               (VError ("Received status code " +:+ pretty (xhr_status xhr) +:+
                        " loading " +:+ url)))
      else
        ret (Fulfilled (xhr_responseText xhr))
  end.

(** One read through the reader; a reader that throws rejects the read. *)
Definition read_file (reader : string → M (settled string)) (url : string)
  : M (settled string) :=
  try_catch (reader url) (λ e, ret (Rejected e)).

(** The reads of several files asked for together: each is made, however
    the others end. *)
Fixpoint read_files (reader : string → M (settled string))
    (urls : list string) : M (list (settled string)) :=
  match urls with
  | [] => ret []
  | url :: rest =>
      let* r := read_file reader url in
      let* rs := read_files reader rest in
      ret (r :: rs)
  end.

(** The texts of reads that all succeeded. *)
Fixpoint texts_of (results : list (settled string)) : option (list string) :=
  match results with
  | [] => Some []
  | Fulfilled text :: rest => cons text <$> texts_of rest
  | _ :: _ => None
  end.

Definition is_rejected {A} (r : settled A) : bool :=
  match r with Rejected _ => true | _ => false end.

(** The parser at work on the includes: a failed read rejects the load;
    when none failed, a read that is never answered leaves it pending. *)
Fixpoint run_loading (reader : string → M (settled string)) (s : loading)
  : M (settled value) :=
  match s with
  | Parsed data => ret (Fulfilled data)
  | Malformed err => ret (Rejected err)
  | ReadFiles urls failed k =>
      let* results := read_files reader urls in
      match texts_of results with
      | Some texts => run_loading reader (k texts)
      | None =>
          if existsb is_rejected results then ret (Rejected (failed results))
          else ret Pending
      end
  end.

(** [ramlParser.loadFile(url, { reader: reader })]: the main file is read
    first, and a failure of that read is the failure of the load. *)
Definition ramlParser_loadFile (url : string)
    (reader : string → M (settled string)) : M (settled value) :=
  let* main := read_file reader url in
  match main with
  | Fulfilled text => run_loading reader (raml_parse App url text)
  | Rejected reason => ret (Rejected reason)
  | Pending => ret Pending
  end.

(** [promise.then(onFulfilled, onRejected)]: what a handler returns or
    throws goes to the derived promise, which index.js drops. *)
Definition promise_then {A} (p : settled A) (onFulfilled : A → M value)
    (onRejected : value → M value) : M unit :=
  match p with
  | Fulfilled a => settle_quietly (onFulfilled a)
  | Rejected reason => settle_quietly (onRejected reason)
  | Pending => ret tt
  end.

End Collaborators.

(** ** The API object *)

Module API.


(** [API.set = function (client, key, value)] *)
Definition set (arguments : list value) : M value :=
  let client := arg 0 arguments in
  let key := arg 1 arguments in
  let value := arg 2 arguments in
  if (length arguments <? 3)%nat then
    let* config := get_prop client "!config" in
    _extend config key
  else
    let* config := get_prop client "!config" in
    set_prop config (to_key key) value ;;;
    ret value.

(** [API.get = function (client, key)] *)
Definition get (arguments : list value) : M value :=
  let client := arg 0 arguments in
  let key := arg 1 arguments in
  if (length arguments <? 2)%nat then
    get_prop client "!config"
  else
    let* config := get_prop client "!config" in
    get_prop config (to_key key).

(** [API.unset = function (client, key)] *)
Definition unset (arguments : list value) : M value :=
  let client := arg 0 arguments in
  let key := arg 1 arguments in
  if (length arguments <? 2)%nat then
    let* config := get_prop client "!config" in
    _each config (λ value key obj, delete_prop obj (to_key key) ;;; ret tt) ;;;
    ret (VBool true)
  else
    let* config := get_prop client "!config" in
    delete_prop config (to_key key).


Section WithHost.

Context (App : host).

(** The [function (data) { ... }] that [API.createClient] passes to [then]
    as the handler of a loaded description. *)
Definition createClient_loaded (name : string) (config done : value)
    (data : value) : M value :=
  let* caught :=
    try_catch
      (let* client := clientGenerator_call App data config in
       fromPath_call App (split_dots name) client ;;;
       ret None)
      (λ e, let* r := call done [e] in ret (Some r)) in
  match caught with
  | Some r => ret r
  | None =>
      call done
        [VNull;
         VString ("Create a new code cell and type '" +:+ name +:+ ".' " +:+
                  "to explore this API.")]
  end.

(** [API.createClient = function (name, url, config, done)] *)
Definition createClient (arguments : list value) : M value :=
  let name := arg 0 arguments in
  let url := arg 1 arguments in
  let config := arg 2 arguments in
  let done := arg 3 arguments in
  match name with
  | VString name =>
    match url with
    | VString url =>
      (* Allow the config object to be skipped. *)
      let* shifted :=
        (if is_function config then
           let* fresh_config := new_object in
           ret (fresh_config, arg 2 arguments)
         else ret (config, done)) in
      let config := shifted.1 in
      let done := shifted.2 in
      executeContext_timeout Infinity ;;;
      let* done :=
        (if truthy done then ret done else executeContext_async_call App) in
      let* config := (if truthy config then ret config else new_object) in
      let* loaded := ramlParser_loadFile App url (createReader App config) in
      promise_then loaded
        (createClient_loaded name config done)
        (λ reason, call done [reason]) ;;;
      ret VUndefined
    | _ =>
      throw (VError ("Provide a URL for the " +:+ name +:+ " RAML document"))
    end
  | _ => throw (VError "Provide a name for the generated client")
  end.

(** [var cb = function (err, scheme, options, tokens)] inside
    [API.authenticate].  The right-hand side of the assignment is evaluated
    before the write to [clientOption.authentication] can fail. *)
Definition cb (done clientOption : value) (a : cb_args) : M value :=
  let err := cb_err a in
  let scheme := cb_scheme a in
  let options := cb_options a in
  let tokens := cb_tokens a in
  if truthy err then
    call done [err]
  else
    let* authentication := get_prop clientOption "authentication" in
    let* scheme_type := get_prop scheme "type" in
    let* bundle := _extend options tokens in
    set_prop authentication (to_key scheme_type) bundle ;;;
    call done [VNull; tokens].

(** [API.authenticate = function (client, method, options, done)] *)
Definition authenticate (arguments : list value) : M value :=
  let client := arg 0 arguments in
  let method := arg 1 arguments in
  let options := arg 2 arguments in
  let done := arg 3 arguments in
  executeContext_timeout (Millis (10 * 60 * 1000)) ;;;
  let* done :=
    (if truthy done then ret done else executeContext_async_call App) in
  let* clientOption := get_prop client "!client" in
  let* securedBy := get_prop clientOption "securedBy" in
  let* securitySchemes := get_prop clientOption "securitySchemes" in
  authenticate_call App securedBy securitySchemes method options
    (cb done clientOption).

End WithHost.

End API.

(** * Specification vocabulary *)

(** [client_config h c] is the location of [c['!config']] when [c] is a
    client: a function (or object) whose ['!config'] property refers to a
    configuration object of the store other than [c] itself. *)
Definition client_config (h : heap) (c : value)
  : option positive :=
  match c with
  | VFunction l | VObject l =>
      match (h !!! l) !! "!config" with
      | Some (VObject lc) =>
          if decide (l ≠ lc ∧ is_Some (h !! lc)) then Some lc else None
      | _ => None
      end
  | _ => None
  end.

(** The own properties of the object at [l]. *)
Definition props_at (st : state) (l : positive) : props :=
  heap_of st !!! l.


(** [client_option h c] is the location of [c['!client']] when that is an
    object. *)
Definition client_option (h : heap) (c : value)
  : option positive :=
  match c with
  | VFunction l | VObject l =>
      match (h !!! l) !! "!client" with
      | Some (VObject lco) => Some lco
      | _ => None
      end
  | _ => None
  end.

(** The completion handle [createClient] and [authenticate] end up with:
    the callback that was passed (third argument of [createClient] when the
    configuration is skipped), else the one obtained from the sandbox. *)
Definition completion_handle (App : host) (config done : value) : value :=
  if is_function config then config
  else if truthy done then done
  else VFunction (executeContext_async App).

(** The events of [App._executeContext.async()], when it is called. *)
Definition async_events (App : host) (config done : value) : list event :=
  if is_function config || truthy done then []
  else [EvAsync (VFunction (executeContext_async App))].

Definition status_message (status : Z) (url : string) : string :=
  "Received status code " +:+ pretty status +:+ " loading " +:+ url.

Definition success_message (name : string) : string :=
  "Create a new code cell and type '" +:+ name +:+ ".' to explore this API.".

(** The event of calling [f(args)]; none if [f] is not callable. *)
Definition calls (f : value) (args : list value) : list event :=
  if is_function f then [EvCall f args] else [].

Definition is_call (e : event) : bool :=
  match e with EvCall _ _ => true | _ => false end.

Definition is_ajax (e : event) : bool :=
  match e with EvAjax _ _ _ _ => true | _ => false end.

Definition is_install (e : event) : bool :=
  match e with EvInstall _ _ _ => true | _ => false end.

Definition is_unanswered (e : event) : bool :=
  match e with EvAjax _ _ _ None => true | _ => false end.

(** What the reads of the includes log: requests only, one of them
    unanswered when the load stays pending. *)
Definition includes_path (o : settled value) (evs : list event) : Prop :=
  (∀ e, e ∈ evs → is_ajax e = true) ∧
  (o = Pending → ∃ e, e ∈ evs ∧ is_unanswered e = true).

(** The ways the load of [url] can go, with the requests it makes: the
    first is the read of the main file. *)
Inductive load_path (url : string) : settled value → list event → Prop :=
| load_reader_throws e :
    load_path url (Rejected e) []
| load_unanswered proxy headers :
    load_path url Pending [EvAjax url proxy headers None]
| load_transport_error proxy headers xhr :
    truthy (reply_err xhr) = true →
    load_path url (Rejected (reply_err xhr))
              [EvAjax url proxy headers (Some xhr)]
| load_status_error proxy headers xhr :
    truthy (reply_err xhr) = false →
    xhr_status xhr `div` 100 ≠ 2 →
    load_path url (Rejected (VError (status_message (xhr_status xhr) url)))
              [EvAjax url proxy headers (Some xhr)]
| load_read proxy headers xhr o evs :
    truthy (reply_err xhr) = false →
    xhr_status xhr `div` 100 = 2 →
    includes_path o evs →
    load_path url o (EvAjax url proxy headers (Some xhr) :: evs).

(** The ways the handlers given to [then] can go. *)
Inductive handler_path (handle : value) (name : string)
  : settled value → list event → Prop :=
| handler_pending :
    handler_path handle name Pending []
| handler_rejected reason :
    handler_path handle name (Rejected reason) (calls handle [reason])
| handler_generator_throws data config e :
    handler_path handle name (Fulfilled data)
      (EvGenerate data config (Throw e) :: calls handle [e])
| handler_install_throws data config client e :
    handler_path handle name (Fulfilled data)
      (EvGenerate data config (Normal client) ::
       EvInstall (split_dots name) client (Throw e) :: calls handle [e])
| handler_installed data config client :
    handler_path handle name (Fulfilled data)
      (EvGenerate data config (Normal client) ::
       EvInstall (split_dots name) client (Normal tt) ::
       calls handle [VNull; VString (success_message name)]).

(** [extends m]: whatever [m] does, it only adds events to the trace. *)
Definition extends {A} (m : M A) : Prop :=
  ∀ st, ∃ evs, trace (m st).2 = trace st ++ evs.

(** [keeps_trace m]: [m] logs nothing.  [no_effect m]: [m] changes neither
    the store nor the trace. *)
Definition keeps_trace {A} (m : M A) : Prop :=
  ∀ st, trace (m st).2 = trace st.

Definition no_effect {A} (m : M A) : Prop :=
  ∀ st, (m st).2 = st.

(** The [proxy] that the requests of [createClient(name, url, config)]
    carry: [config.proxy] for a configuration object, [undefined] when the
    configuration is skipped, absent or not an object. *)
Definition request_proxy (h : heap) (config : value) : value :=
  match config with
  | VObject l => default VUndefined ((h !!! l) !! "proxy")
  | _ => VUndefined
  end.

(** A request as the reader makes it: some URL, the given proxy, and the
    one [Accept] header. *)
Definition is_request (proxy : value) (e : event) : Prop :=
  ∃ url reply,
    e = EvAjax url proxy [("Accept", "application/raml+yaml, */*")] reply.

(** The events of the handlers given to [then]. *)
Definition is_handler_event (e : event) : bool :=
  match e with
  | EvGenerate _ _ _ | EvInstall _ _ _ | EvCall _ _ => true
  | _ => false
  end.

(** The place of an event in a run of [createClient]. *)
Definition phase (e : event) : nat :=
  match e with
  | EvTimeout _ => 0
  | EvAsync _ => 1
  | EvAjax _ _ _ _ => 2
  | EvGenerate _ _ _ => 3
  | EvInstall _ _ _ => 4
  | EvCall _ _ => 5
  | EvAuthenticate _ _ _ _ _ => 6
  end%nat.

(** [pieces.join('.')] *)
Fixpoint join_dots (pieces : list string) : string :=
  match pieces with
  | [] => ""
  | [piece] => piece
  | piece :: rest => piece +:+ "." +:+ join_dots rest
  end.

(** Whether a string has a dot in it. *)
Fixpoint has_dot (s : string) : bool :=
  match s with
  | EmptyString => false
  | String c rest => Ascii.eqb c "."%char || has_dot rest
  end.

(** [calls_at_most_once m]: all that [m] logs is at most one call of a
    callback. *)
Definition calls_at_most_once {A} (m : M A) : Prop :=
  ∀ st, ∃ evs,
    trace (m st).2 = trace st ++ evs ∧
    (evs = [] ∨ ∃ f args, evs = [EvCall f args]).

(** [client_option_missing h c]: [c['!client']] is [null] or [undefined],
    or [c] itself is. *)
Definition client_option_missing (h : heap) (c : value) : bool :=
  match c with
  | VUndefined | VNull => true
  | VObject l | VFunction l =>
      match (h !!! l) !! "!client" with
      | None | Some VUndefined | Some VNull => true
      | Some _ => false
      end
  | VError _ | VBool _ | VNumber _ | VString _ | VBuiltin _ => true
  end.

(** ** Sample stores and hosts *)

(** A sample store: the client function [1] with configuration [2], which
    holds [x: 7]; the plain object [3] is [{a: 1, b: 2}]. *)
Definition sample_heap : heap :=
  <[1%positive := {[ "!config" := VObject 2 ]}]>
    (<[2%positive := {[ "x" := VNumber 7 ]}]>
       (<[3%positive := <["a" := VNumber 1]> {[ "b" := VNumber 2 ]}]> ∅)).

Definition sample_state : state := State sample_heap [].

Definition sample_client : value := VFunction 1.


(** A store for [authenticate]: the client function [1] has the options
    object [2]; its authentication map [3] holds, for 'OAuth 2.0', the
    bundle [4].  [10] is a security scheme, [11] a token bundle and [12] an
    options object. *)
Definition auth_heap : heap :=
  <[1%positive := {[ "!client" := VObject 2 ]}]>
    (<[2%positive := {[ "authentication" := VObject 3 ]}]>
    (<[3%positive := {[ "OAuth 2.0" := VObject 4 ]}]>
    (<[4%positive := {[ "refreshToken" := VString "r0" ]}]>
    (<[10%positive := {[ "type" := VString "OAuth 2.0" ]}]>
    (<[11%positive := {[ "accessToken" := VString "t1" ]}]>
    (<[12%positive := {[ "clientId" := VString "id" ]}]> ∅)))))).

Definition auth_state : state := State auth_heap [].



(** A host whose network answers every request with [status], whose parser
    needs no include, and whose client generator throws on demand.  Its
    authenticator calls back once, with the scheme at [10] and the tokens
    at [11]. *)
Definition sample_host (status : Z) (generator_throws : bool) : host := {|
  executeContext_async := 100;
  executeWindow := VObject 50;
  middleware_ajax := λ _ _, Some (AjaxReply VNull status "#%RAML 0.8");
  raml_parse := λ _ text, Parsed (VString text);
  clientGenerator := λ _ _ h,
    (if generator_throws then Throw (VError "Malformed schema")
     else Normal (VFunction 60), h);
  fromPath := λ _ _ _ h, (Normal tt, h);
  authenticate := λ _ _ _ options h,
    (h, [CbArgs VNull (VObject 10) options (VObject 11)], Normal VUndefined)
|}.

Definition sample_done : value := VFunction 7.

Definition accept_header : list (string * string) :=
  [("Accept", "application/raml+yaml, */*")].

(** * Properties *)

Ltac run_M :=
  unfold get_prop, set_prop, delete_prop, own_keys, call, bind, ret, throw,
    get_heap, put_heap, emit, try_catch, settle_quietly; simpl.

#[global] Arguments get_prop : simpl never.
#[global] Arguments set_prop : simpl never.
#[global] Arguments delete_prop : simpl never.
#[global] Arguments own_keys : simpl never.
#[global] Arguments call : simpl never.
#[global] Arguments inherited : simpl never.
#[global] Arguments Object_prototype : simpl never.

Section ConfigLemmas.

Implicit Types (h : heap) (st : state).
Implicit Types (cfg src : props) (ks : list string).

Lemma client_config_inv h c lc :
  client_config h c = Some lc →
  ∃ l cfg, (c = VFunction l ∨ c = VObject l) ∧
           (h !!! l) !! "!config" = Some (VObject lc) ∧
           l ≠ lc ∧ h !! lc = Some cfg.
Proof.
  unfold client_config. intros Hc.
  destruct c as [| | | | | |l|l|]; try discriminate;
    destruct ((h !!! l) !! "!config") as [[| | | | | |l'| |]|] eqn:E;
    try discriminate;
    destruct (decide (l ≠ l' ∧ is_Some (h !! l'))) as [[Hne [cfg Hcfg]]|];
    try discriminate; simplify_eq; eauto 10.
Qed.

Lemma get_config st c lc :
  client_config (heap_of st) c = Some lc →
  get_prop c "!config" st = (Normal (VObject lc), st).
Proof.
  intros (l & cfg & [-> | ->] & Hl & _ & _)%client_config_inv;
    run_M; by rewrite Hl.
Qed.

Lemma lookup_total_Some h l cfg : h !! l = Some cfg → h !!! l = cfg.
Proof. intros H. by rewrite lookup_total_alt, H. Qed.

(** Writing to the configuration leaves the client a client. *)
Lemma client_config_update h c lc cfg' :
  client_config h c = Some lc →
  client_config (<[lc := cfg']> h) c = Some lc.
Proof.
  intros (l & cfg & Hc & Hl & Hne & Hcfg)%client_config_inv.
  assert (client_config (<[lc := cfg']> h) (VFunction l) = Some lc ∧
          client_config (<[lc := cfg']> h) (VObject l) = Some lc) as [H1 H2].
  { unfold client_config.
    rewrite lookup_total_insert_ne by done. rewrite Hl.
    rewrite decide_True; [done|]. split; [done|].
    rewrite lookup_insert_eq. eauto. }
  by destruct Hc as [-> | ->].
Qed.

(** Reads and writes of one property of an object of the store. *)



Lemma get_prop_object l k st :
  get_prop (VObject l) k st
  = (Normal (default (inherited (VObject l) k) (props_at st l !! k)), st).
Proof. done. Qed.

Lemma set_prop_object l k v st :
  k ≠ "__proto__" →
  set_prop (VObject l) k v st
  = (Normal tt,
     State (<[l := <[k := v]> (props_at st l)]> (heap_of st)) (trace st)).
Proof.
  intros Hk. run_M.
  by rewrite (proj2 (String.eqb_neq k "__proto__") Hk).
Qed.

Lemma delete_prop_object l k st :
  delete_prop (VObject l) k st
  = (Normal (VBool true),
     State (<[l := delete k (props_at st l)]> (heap_of st)) (trace st)).
Proof. done. Qed.









(** What each configuration operation does on a client. *)

Lemma set_key_through st c lc k v :
  client_config (heap_of st) c = Some lc →
  API.set [c; VString k; v] st
  = (Normal v, (set_prop (VObject lc) k v st).2).
Proof.
  intros Hc. unfold API.set, arg. simpl. unfold bind at 1.
  rewrite (get_config _ _ _ Hc). unfold bind.
  by destruct (set_prop (VObject lc) k v st) as [[[]|e] st1] eqn:E;
    [|revert E; run_M; case_match].
Qed.

Lemma set_key_spec st c lc k v :
  client_config (heap_of st) c = Some lc →
  k ≠ "__proto__" →
  API.set [c; VString k; v] st
  = (Normal v,
     State (<[lc := <[k := v]> (props_at st lc)]> (heap_of st)) (trace st)).
Proof.
  intros Hc Hk. by rewrite (set_key_through _ _ _ _ _ Hc), set_prop_object.
Qed.

Lemma get_key_through st c lc k :
  client_config (heap_of st) c = Some lc →
  API.get [c; VString k] st = get_prop (VObject lc) k st.
Proof.
  intros Hc. unfold API.get, arg. simpl. unfold bind at 1.
  by rewrite (get_config _ _ _ Hc).
Qed.

Lemma get_key_spec st c lc k :
  client_config (heap_of st) c = Some lc →
  API.get [c; VString k] st
  = (Normal (default (inherited (VObject lc) k) (props_at st lc !! k)), st).
Proof. intros Hc. by rewrite (get_key_through _ _ _ _ Hc). Qed.

Lemma unset_key_spec st c lc k :
  client_config (heap_of st) c = Some lc →
  API.unset [c; VString k] st
  = (Normal (VBool true),
     State (<[lc := delete k (props_at st lc)]> (heap_of st)) (trace st)).
Proof.
  intros Hc. unfold API.unset, arg. simpl. unfold bind at 1.
  rewrite (get_config _ _ _ Hc). by run_M.
Qed.




End ConfigLemmas.

(** ** The configuration operations, keyed forms *)







(** ** The configuration operations, bulk forms *)

(** [set(c, {a: 1, b: 2})] on the sample client, whose configuration
    holds [x: 7]. *)
Example set_bulk_sample :
  let st' := (API.set [sample_client; VObject 3] sample_state).2 in
  props_at st' 2 !! "a" = Some (VNumber 1) ∧
  props_at st' 2 !! "b" = Some (VNumber 2) ∧
  props_at st' 2 !! "x" = Some (VNumber 7).
Proof. repeat split; reflexivity. Qed.




(** ** Aliasing of the configuration object *)



(** ** Execution paths of [createClient] *)

Section CreateClientLemmas.

Context (App : host).

Lemma get_prop_cases o k st :
  get_prop o k st = (Throw TypeError, st) ∨
  ∃ v, get_prop o k st = (Normal v, st).
Proof. destruct o; run_M; eauto. Qed.

Lemma state_eta st evs :
  evs = [] → State (heap_of st) (trace st ++ evs) = st.
Proof. intros ->. destruct st; simpl. by rewrite app_nil_r. Qed.

Lemma call_run f args st :
  ∃ r, call f args st
       = (r, State (heap_of st) (trace st ++ calls f args)).
Proof.
  unfold calls, call.
  destruct (is_function f); run_M; rewrite ?state_eta by done; eauto.
Qed.

(** One run of the reader: at most one request, and nothing else. *)
Lemma createReader_run config url st :
  createReader App config url st = (Throw TypeError, st) ∨
  ∃ proxy headers,
    let reply := middleware_ajax App url proxy in
    let st' := State (heap_of st)
                     (trace st ++ [EvAjax url proxy headers reply]) in
    createReader App config url st =
    (Normal
       match reply with
       | None => Pending
       | Some xhr =>
           if truthy (reply_err xhr) then Rejected (reply_err xhr)
           else if negb (xhr_status xhr `div` 100 =? 2) then
             Rejected (VError (status_message (xhr_status xhr) url))
           else Fulfilled (xhr_responseText xhr)
       end, st').
Proof.
  destruct (get_prop_cases config "proxy" st) as [Hproxy | [proxy Hproxy]];
    [left|right].
  { unfold createReader. unfold bind at 1. by rewrite Hproxy. }
  exists proxy, [("Accept", "application/raml+yaml, */*")]. cbv zeta.
  unfold createReader. unfold bind at 1. rewrite Hproxy.
  unfold status_message. run_M.
  destruct (middleware_ajax App url proxy) as [xhr|]; [|done].
  destruct (truthy (reply_err xhr)); [done|].
  by destruct (negb (xhr_status xhr `div` 100 =? 2)).
Qed.

(** One read: it returns normally, touches no object, and logs the
    request it makes. *)
Lemma read_file_run config url st :
  ∃ r evs,
    read_file (createReader App config) url st
    = (Normal r, State (heap_of st) (trace st ++ evs)) ∧
    (evs = [] ∧ r = Rejected TypeError ∨
     ∃ proxy headers,
       let reply := middleware_ajax App url proxy in
       evs = [EvAjax url proxy headers reply] ∧
       r = match reply with
           | None => Pending
           | Some xhr =>
               if truthy (reply_err xhr) then Rejected (reply_err xhr)
               else if negb (xhr_status xhr `div` 100 =? 2) then
                 Rejected (VError (status_message (xhr_status xhr) url))
               else Fulfilled (xhr_responseText xhr)
           end).
Proof.
  unfold read_file, try_catch.
  destruct (createReader_run config url st)
    as [-> | (proxy & headers & Hrun)].
  - exists (Rejected TypeError), []. split; [|by left].
    unfold ret. f_equal. symmetry. by apply state_eta.
  - cbv zeta in Hrun. rewrite Hrun. eexists _, _. split; [done|].
    right. by exists proxy, headers.
Qed.

Lemma read_file_events config url st r evs :
  read_file (createReader App config) url st
  = (Normal r, State (heap_of st) (trace st ++ evs)) →
  (∀ e, e ∈ evs → is_ajax e = true) ∧
  (r = Pending → ∃ e, e ∈ evs ∧ is_unanswered e = true).
Proof.
  intros Hrun.
  destruct (read_file_run config url st)
    as (r' & evs' & Hrun' & Hcases).
  rewrite Hrun in Hrun'. injection Hrun' as -> Hevs%app_inv_head. subst evs'.
  destruct Hcases as [[-> ->] | (proxy & headers & -> & ->)].
  - split; [by intros e ?%not_elem_of_nil | done].
  - split; [by intros e ->%list_elem_of_singleton|].
    destruct (middleware_ajax App url proxy) as [xhr|].
    + destruct (truthy (reply_err xhr)); [done|].
      by destruct (negb (xhr_status xhr `div` 100 =? 2)).
    + intros _. eexists. split; [by left | done].
Qed.

(** Reads asked for together: requests only, with an unanswered one for
    every read that stays pending. *)
Lemma read_files_run config urls : ∀ st,
  ∃ rs evs,
    read_files (createReader App config) urls st
    = (Normal rs, State (heap_of st) (trace st ++ evs)) ∧
    (∀ e, e ∈ evs → is_ajax e = true) ∧
    (Pending ∈ rs → ∃ e, e ∈ evs ∧ is_unanswered e = true).
Proof.
  induction urls as [|url urls IH]; intros st.
  - exists [], []. split; [|split].
    + simpl. unfold ret. f_equal. symmetry. by apply state_eta.
    + by intros e ?%not_elem_of_nil.
    + by intros ?%not_elem_of_nil.
  - cbn [read_files]. unfold bind at 1.
    destruct (read_file_run config url st) as (r & evs1 & Hrun & _).
    rewrite Hrun.
    destruct (read_file_events _ _ _ _ _ Hrun) as [Hajax1 Hpending1].
    unfold bind at 1.
    destruct (IH (State (heap_of st) (trace st ++ evs1)))
      as (rs & evs2 & -> & Hajax2 & Hpending2).
    exists (r :: rs), (evs1 ++ evs2). split; [|split].
    + unfold ret. cbn [heap_of trace]. by rewrite <- app_assoc.
    + intros e [?|?]%elem_of_app; auto.
    + intros [<- | Hin]%elem_of_cons.
      * destruct Hpending1 as (e & He & Hun); [done|].
        exists e. split; [|done]. apply elem_of_app. by left.
      * destruct (Hpending2 Hin) as (e & He & Hun).
        exists e. split; [|done]. apply elem_of_app. by right.
Qed.

Lemma texts_of_None (rs : list (settled string)) :
  texts_of rs = None → existsb is_rejected rs = false → Pending ∈ rs.
Proof.
  induction rs as [|[text|reason|] rs IH]; cbn; try done.
  - destruct (texts_of rs); [done|]. intros _ Hrej. right. by apply IH.
  - intros _ _. by left.
Qed.

(** The parser at work on the includes returns normally, touches no
    object, and makes requests only. *)
Lemma run_loading_path config (s : loading) : ∀ st,
  ∃ o evs,
    run_loading (createReader App config) s st
    = (Normal o, State (heap_of st) (trace st ++ evs)) ∧
    includes_path o evs.
Proof.
  induction s as [data|err|urls failed k IH]; intros st.
  - exists (Fulfilled data), []. split.
    + simpl. unfold ret. f_equal. symmetry. by apply state_eta.
    + split; [by intros e ?%not_elem_of_nil | done].
  - exists (Rejected err), []. split.
    + simpl. unfold ret. f_equal. symmetry. by apply state_eta.
    + split; [by intros e ?%not_elem_of_nil | done].
  - cbn [run_loading]. unfold bind at 1.
    destruct (read_files_run config urls st)
      as (rs & evs1 & -> & Hajax1 & Hpending1).
    destruct (texts_of rs) as [texts|] eqn:Htexts.
    + destruct (IH texts (State (heap_of st) (trace st ++ evs1)))
        as (o & evs2 & -> & Hajax2 & Hpending2).
      exists o, (evs1 ++ evs2). split; [|split].
      * cbn [heap_of trace]. by rewrite <- app_assoc.
      * intros e [?|?]%elem_of_app; auto.
      * intros Ho. destruct (Hpending2 Ho) as (e & He & Hun).
        exists e. split; [|done]. apply elem_of_app. by right.
    + destruct (existsb is_rejected rs) eqn:Hrej.
      * eexists _, evs1. split; [done|]. by split.
      * exists Pending, evs1. split; [done|]. split; [done|].
        intros _. apply Hpending1. by apply texts_of_None.
Qed.

(** A load returns normally, touches no object, and follows a
    [load_path]. *)
Lemma loadFile_path config url st :
  ∃ o evs,
    ramlParser_loadFile App url (createReader App config) st
    = (Normal o, State (heap_of st) (trace st ++ evs)) ∧
    load_path url o evs.
Proof.
  unfold ramlParser_loadFile. unfold bind at 1.
  destruct (read_file_run config url st) as (r & evs1 & -> & Hcases).
  destruct Hcases as [[-> ->] | (proxy & headers & -> & ->)].
  { eexists _, []. split; [done | constructor]. }
  destruct (middleware_ajax App url proxy) as [xhr|].
  2: { eexists Pending, [_]. split; [done|]. constructor. }
  destruct (truthy (reply_err xhr)) eqn:Herr.
  { eexists _, [_]. split; [done|]. by constructor. }
  destruct (xhr_status xhr `div` 100 =? 2) eqn:Hstatus; simpl.
  - apply Z.eqb_eq in Hstatus.
    destruct (run_loading_path config
                (raml_parse App url (xhr_responseText xhr))
                (State (heap_of st)
                   (trace st ++ [EvAjax url proxy headers (Some xhr)])))
      as (o & evs & -> & Hpath).
    exists o, (EvAjax url proxy headers (Some xhr) :: evs).
    split; [|by constructor].
    cbn [heap_of trace]. by rewrite <- app_assoc.
  - apply Z.eqb_neq in Hstatus.
    eexists _, [_]. split; [done|]. by constructor.
Qed.

(** The handlers given to [then] return to nobody and follow a
    [handler_path]. *)
Lemma loaded_handlers_path name config done (o : settled value) st :
  ∃ st' tail,
    promise_then o (API.createClient_loaded App name config done)
                 (λ reason, call done [reason]) st
    = (Normal tt, st') ∧
    trace st' = trace st ++ tail ∧
    handler_path done name o tail.
Proof.
  destruct o as [data|reason|]; cbn [promise_then].
  - unfold settle_quietly, API.createClient_loaded.
    unfold bind at 1. unfold try_catch. unfold bind at 1.
    unfold clientGenerator_call.
    destruct (clientGenerator App data config (heap_of st))
      as [[client|e] h2] eqn:Hgen.
    + unfold bind at 1. unfold fromPath_call. cbn [heap_of trace].
      destruct (fromPath App (executeWindow App) (split_dots name) client h2)
        as [[[]|e] h3] eqn:Hinstall.
      * unfold ret at 1.
        match goal with |- context [call done ?a ?s] =>
          destruct (call_run done a s) as [r ->] end.
        eexists _, _. split; [done|]. cbn [snd trace heap_of].
        rewrite <- !app_assoc. split; [done|]. apply handler_installed.
      * unfold bind at 1.
        match goal with |- context [call done ?a ?s] =>
          destruct (call_run done a s) as [r ->] end.
        eexists _, _. split; [done|].
        destruct r; cbn [snd trace heap_of]; rewrite <- !app_assoc;
          (split; [done|]); apply handler_install_throws.
    + unfold bind at 1.
      match goal with |- context [call done ?a ?s] =>
        destruct (call_run done a s) as [r ->] end.
      eexists _, _. split; [done|].
      destruct r; cbn [snd trace heap_of]; rewrite <- !app_assoc;
        (split; [done|]); apply handler_generator_throws.
  - unfold settle_quietly.
    destruct (call_run done [reason] st) as [r ->].
    eexists _, _. split; [done|]. split; [done|]. apply handler_rejected.
  - exists st, []. split; [done|]. split; [by rewrite app_nil_r|].
    apply handler_pending.
Qed.

(** Every call of [createClient] with a string name and a string URL
    returns [undefined]; what it does is: the timeout, the handle from the
    sandbox if none was passed, a load, and the handlers. *)
Lemma createClient_paths (arguments : list value) (name url : string) st :
  arg 0 arguments = VString name →
  arg 1 arguments = VString url →
  let config := arg 2 arguments in
  let done := arg 3 arguments in
  ∃ st' o load_evs tail,
    API.createClient App arguments st = (Normal VUndefined, st') ∧
    trace st' = trace st ++ EvTimeout Infinity ::
                  async_events App config done ++ load_evs ++ tail ∧
    load_path url o load_evs ∧
    handler_path (completion_handle App config done) name o tail.
Proof.
  intros Hname Hurl. cbv zeta.
  unfold API.createClient. rewrite Hname, Hurl.
  unfold completion_handle, async_events.
  set (config := arg 2 arguments). set (done := arg 3 arguments).
  assert (Hrest : ∀ cfg handle st1,
    ∃ st' o load_evs tail,
      (let* loaded := ramlParser_loadFile App url (createReader App cfg) in
       promise_then loaded (API.createClient_loaded App name cfg handle)
         (λ reason, call handle [reason]) ;;;
       ret VUndefined) st1 = (Normal VUndefined, st') ∧
      trace st' = trace st1 ++ load_evs ++ tail ∧
      load_path url o load_evs ∧ handler_path handle name o tail).
  { intros cfg handle st1. unfold bind at 1.
    destruct (loadFile_path cfg url st1) as (o & load_evs & -> & Hload).
    unfold bind at 1.
    destruct (loaded_handlers_path name cfg handle o
                (State (heap_of st1) (trace st1 ++ load_evs)))
      as (st' & tail & -> & Htrace & Hpath).
    exists st', o, load_evs, tail. split; [done|].
    split; [|done]. rewrite Htrace. cbn [trace]. by rewrite <- app_assoc. }
  assert (Hnew : ∀ st1, ∃ l,
    new_object st1 = (Normal (VObject l),
                      State (<[l := ∅]> (heap_of st1)) (trace st1))).
  { intros st1. by exists (fresh (dom (heap_of st1))). }
  assert (Hfinish : ∀ cfg handle st1 evs0,
    trace st1 = trace st ++ EvTimeout Infinity :: evs0 →
    ∃ st' o load_evs tail,
      (let* loaded := ramlParser_loadFile App url (createReader App cfg) in
       promise_then loaded (API.createClient_loaded App name cfg handle)
         (λ reason, call handle [reason]) ;;;
       ret VUndefined) st1 = (Normal VUndefined, st') ∧
      trace st' = trace st ++ EvTimeout Infinity ::
                    evs0 ++ load_evs ++ tail ∧
      load_path url o load_evs ∧ handler_path handle name o tail).
  { intros cfg handle st1 evs0 Hst1.
    destruct (Hrest cfg handle st1)
      as (st' & o & load_evs & tail & Hrun & Htrace & Hload & Hpath).
    exists st', o, load_evs, tail. split; [done|]. split; [|done].
    rewrite Htrace, Hst1. by rewrite <- app_assoc. }
  clear Hrest.
  unfold bind at 1.
  destruct (is_function config) eqn:Hfn.
  - (* the configuration was skipped *)
    unfold bind at 1. destruct (Hnew st) as [l ->]. unfold ret at 1.
    cbn [fst snd]. unfold bind at 1, executeContext_timeout, emit.
    assert (truthy config = true) as -> by by destruct config.
    unfold bind at 1, ret at 1. cbn [truthy]. unfold bind at 1, ret at 1.
    cbn [orb]. by apply Hfinish.
  - unfold ret at 1. cbn [fst snd orb].
    unfold bind at 1, executeContext_timeout, emit.
    unfold bind at 1.
    destruct (truthy done) eqn:Hdone.
    + unfold ret at 1. unfold bind at 1.
      destruct (truthy config) eqn:Hconfig.
      * unfold ret at 1. by apply Hfinish.
      * destruct (Hnew (State (heap_of st) (trace st ++ [EvTimeout Infinity])))
          as [l ->].
        apply Hfinish. cbn [trace]. done.
    + unfold executeContext_async_call, bind at 1, emit, bind at 1, ret at 1.
      cbn [heap_of trace]. unfold bind at 1.
      destruct (truthy config) eqn:Hconfig.
      * unfold ret at 1. apply Hfinish. cbn [trace].
        by rewrite <- app_assoc.
      * match goal with |- context [new_object ?s] =>
          destruct (Hnew s) as [l ->] end.
        apply Hfinish. cbn [trace]. by rewrite <- app_assoc.
Qed.

End CreateClientLemmas.

(** ** Facts about the paths *)

Lemma load_path_ajax url o evs e :
  load_path url o evs → e ∈ evs → is_ajax e = true.
Proof.
  destruct 1 as [| | | |proxy headers xhr o evs _ _ [Hajax _]]; intros Hin.
  - by apply not_elem_of_nil in Hin.
  - by apply list_elem_of_singleton in Hin as ->.
  - by apply list_elem_of_singleton in Hin as ->.
  - by apply list_elem_of_singleton in Hin as ->.
  - apply elem_of_cons in Hin as [-> | Hin]; [done | by apply Hajax].
Qed.

(** The first request of a load is the read of the main file, and the
    load ends as that read goes when it fails or is not answered. *)
Lemma load_path_first url o evs read_url proxy headers reply rest :
  load_path url o evs →
  evs = EvAjax read_url proxy headers reply :: rest →
  read_url = url ∧
  match reply with
  | None => o = Pending ∧ rest = []
  | Some xhr =>
      if truthy (reply_err xhr) then
        o = Rejected (reply_err xhr) ∧ rest = []
      else if negb (xhr_status xhr `div` 100 =? 2) then
        o = Rejected (VError (status_message (xhr_status xhr) url)) ∧
        rest = []
      else includes_path o rest
  end.
Proof.
  destruct 1 as [| |? ? ? Herr|? ? ? Herr Hstatus|? ? ? ? ? Herr Hstatus];
    intros Heq; simplify_eq; (split; [done|]); rewrite ?Herr; try done.
  - apply Z.eqb_neq in Hstatus. by rewrite Hstatus.
  - apply Z.eqb_eq in Hstatus. by rewrite Hstatus.
Qed.

(** A load all of whose requests were answered has settled. *)
Lemma load_path_answered url o evs :
  load_path url o evs →
  (∀ read_url proxy headers, EvAjax read_url proxy headers None ∉ evs) →
  o ≠ Pending.
Proof.
  destruct 1 as [| proxy headers | | |? ? ? ? ? _ _ [_ Hpending]];
    intros Hanswered; try done.
  - exfalso. apply (Hanswered url proxy headers). by left.
  - intros Ho. destruct (Hpending Ho) as ([] & Hin & Hun); try done.
    destruct reply; [done|].
    eapply Hanswered. right. exact Hin.
Qed.

(** The requests of a run are the events of its load. *)
Lemma filter_all {A} (P : A → bool) (l : list A) :
  (∀ x, x ∈ l → P x = true) → filter P l = l.
Proof.
  induction l as [|x l IH]; intros Hall; [done|].
  rewrite filter_cons. rewrite (Hall x) by left. simpl.
  f_equal. apply IH. intros y Hy. apply Hall. by right.
Qed.

Lemma filter_is_call_calls handle args :
  is_function handle = true →
  filter is_call (calls handle args) = [EvCall handle args].
Proof. unfold calls. by intros ->. Qed.

Lemma filter_none {A} (P : A → bool) (l : list A) :
  (∀ x, x ∈ l → P x = false) → filter P l = [].
Proof.
  induction l as [|x l IH]; intros Hall; [done|].
  rewrite filter_cons. rewrite (Hall x) by left. simpl.
  apply IH. intros y Hy. apply Hall. by right.
Qed.

Lemma async_events_plain App config done e :
  e ∈ async_events App config done →
  is_call e = false ∧ is_ajax e = false ∧ is_install e = false ∧
  ∀ data cfg r, e ≠ EvGenerate data cfg r.
Proof.
  unfold async_events.
  destruct (is_function config || truthy done).
  - by intros ?%not_elem_of_nil.
  - by intros ->%list_elem_of_singleton.
Qed.

Lemma handler_path_not_ajax handle name o tail e :
  handler_path handle name o tail → e ∈ tail → is_ajax e = false.
Proof.
  destruct 1; unfold calls; destruct (is_function handle); intros Hin;
    repeat (apply elem_of_cons in Hin as [-> | Hin]; [done|]);
    by apply not_elem_of_nil in Hin.
Qed.

(** The calls made in one run of [createClient] are those of its
    handlers. *)
Lemma filter_is_call_run App config done url load_evs tail o :
  load_path url o load_evs →
  filter is_call
    (EvTimeout Infinity :: async_events App config done ++ load_evs ++ tail)
  = filter is_call tail.
Proof.
  intros Hload. rewrite filter_cons. simpl. rewrite !filter_app.
  rewrite (filter_none _ (async_events App config done)).
  2: { intros e He. by apply async_events_plain in He as (? & _). }
  rewrite (filter_none _ load_evs); [done|].
  intros e He. apply (load_path_ajax _ _ _ _ Hload) in He. by destruct e.
Qed.

(** The requests made in one run of [createClient] are those of its
    load. *)
Lemma filter_is_ajax_run App config done handle name url load_evs tail o :
  load_path url o load_evs →
  handler_path handle name o tail →
  filter is_ajax
    (EvTimeout Infinity :: async_events App config done ++ load_evs ++ tail)
  = load_evs.
Proof.
  intros Hload Hpath. rewrite filter_cons. simpl. rewrite !filter_app.
  rewrite (filter_none _ (async_events App config done)).
  2: { intros e He. by apply async_events_plain in He as (_ & ? & _). }
  rewrite (filter_none _ tail).
  2: { intros e He. by apply (handler_path_not_ajax _ _ _ _ _ Hpath). }
  rewrite app_nil_r. simpl. apply filter_all.
  intros e He. by apply (load_path_ajax _ _ _ _ Hload).
Qed.

(** ** Argument validation of [createClient] *)

(** C1, as stated, fails: [createClient('x', 123, done)] throws; [done] is
    not invoked. *)
Lemma createClient_nonstring_url_skips_done :
  let run := API.createClient (sample_host 200 false)
               [VString "x"; VNumber 123; sample_done] sample_state in
  run.1 = Throw (VError "Provide a URL for the x RAML document") ∧
  ¬ ∃ args, EvCall sample_done args ∈ trace run.2.
Proof.
  split; [reflexivity|]. intros [args Hin]. vm_compute in Hin.
  by apply not_elem_of_nil in Hin.
Qed.

(** C1, amended.  A call of [createClient] whose [url] is not a string
    throws an [Error] at once ('Provide a name for the generated client'
    when the name is no string either, else 'Provide a URL for the <name>
    RAML document') and does nothing else: no callback is invoked, no
    request is made, no timeout is set. *)
Theorem createClient_rejects_nonstring_url (App : host)
    (arguments : list value) (st : state) :
  _isString (arg 1 arguments) = false →
  API.createClient App arguments st
  = (Throw (VError
       match arg 0 arguments with
       | VString name => "Provide a URL for the " +:+ name +:+ " RAML document"
       | _ => "Provide a name for the generated client"
       end), st).
Proof.
  intros Hurl. unfold API.createClient.
  destruct (arg 0 arguments); try done.
  destruct (arg 1 arguments); try done.
Qed.

Lemma createClient_rejects_nonstring_url_witness :
  _isString (arg 1 [VString "x"; VNumber 123; sample_done]) = false ∧
  API.createClient (sample_host 200 false)
    [VString "x"; VNumber 123; sample_done] sample_state
  = (Throw (VError "Provide a URL for the x RAML document"), sample_state).
Proof.
  split; [reflexivity|].
  apply (createClient_rejects_nonstring_url (sample_host 200 false)
           [VString "x"; VNumber 123; sample_done] sample_state).
  reflexivity.
Defined.

(** ** Failures of [createClient] *)

Section CreateClientRuns.

Context (App : host) (arguments : list value) (name url : string).
Context (st : state) (evs : list event).

Let handle := completion_handle App (arg 2 arguments) (arg 3 arguments).

Hypothesis Hname : arg 0 arguments = VString name.
Hypothesis Hurl : arg 1 arguments = VString url.
Hypothesis Hevs : trace (API.createClient App arguments st).2 = trace st ++ evs.

(** The run, cut into its parts. *)
Lemma createClient_run_parts :
  ∃ o load_evs tail,
    evs = EvTimeout Infinity ::
            async_events App (arg 2 arguments) (arg 3 arguments) ++
            load_evs ++ tail ∧
    filter is_call evs = filter is_call tail ∧
    load_path url o load_evs ∧
    handler_path handle name o tail.
Proof.
  destruct (createClient_paths App arguments name url st Hname Hurl)
    as (st' & o & load_evs & tail & Hrun & Htrace & Hload & Hpath).
  rewrite Hrun in Hevs. cbn [snd] in Hevs. rewrite Htrace in Hevs.
  apply app_inv_head in Hevs. subst evs.
  exists o, load_evs, tail. split; [done|]. split; [|done].
  by eapply filter_is_call_run.
Qed.

End CreateClientRuns.

(** C3.  In a call of [createClient] with a callable completion handle, if
    the fetch of the description, which is the first request of the run and
    the read of the main file at [url], came back with a status outside
    2xx, then no other request is made and the handle is called, once,
    with the error 'Received status code <status> loading <url>'; the
    client generator is not run and nothing is installed into the
    window. *)
Theorem createClient_status_error (App : host) (arguments : list value)
    (name url : string) (st : state) (evs : list event)
    (read_url : string) (proxy : value) (headers : list (string * string))
    (xhr : ajax_reply) (later : list event) :
  let handle := completion_handle App (arg 2 arguments) (arg 3 arguments) in
  arg 0 arguments = VString name →
  arg 1 arguments = VString url →
  is_function handle = true →
  trace (API.createClient App arguments st).2 = trace st ++ evs →
  filter is_ajax evs = EvAjax read_url proxy headers (Some xhr) :: later →
  truthy (reply_err xhr) = false →
  xhr_status xhr `div` 100 ≠ 2 →
  let error :=
    VError ("Received status code " +:+ pretty (xhr_status xhr) +:+
            " loading " +:+ url) in
  read_url = url ∧ later = [] ∧
  EvCall handle [error] ∈ evs ∧
  filter is_call evs = [EvCall handle [error]] ∧
  (∀ path client r, EvInstall path client r ∉ evs) ∧
  (∀ data config r, EvGenerate data config r ∉ evs).
Proof.
  intros handle Hname Hurl Hhandle Hevs Hfirst Herr Hstatus error.
  subst handle error. fold (status_message (xhr_status xhr) url).
  destruct (createClient_run_parts App arguments name url st evs
              Hname Hurl Hevs)
    as (o & load_evs & tail & -> & Hcalls & Hload & Hpath).
  rewrite (filter_is_ajax_run _ _ _ _ _ _ _ _ _ Hload Hpath) in Hfirst.
  destruct (load_path_first _ _ _ _ _ _ _ _ Hload Hfirst) as [-> Hmain].
  rewrite Herr in Hmain. apply Z.eqb_neq in Hstatus.
  rewrite Hstatus in Hmain. destruct Hmain as [-> ->].
  split; [done|]. split; [done|]. subst load_evs.
  inversion Hpath as [|reason Ho Htail| | |]; subst.
  rewrite Hcalls, (filter_is_call_calls _ _ Hhandle).
  unfold calls. rewrite Hhandle.
  assert (Hplain : ∀ e,
    e ∈ EvTimeout Infinity ::
          async_events App (arg 2 arguments) (arg 3 arguments) ++
          [EvAjax url proxy headers (Some xhr)] →
    is_install e = false ∧ ∀ data config r, e ≠ EvGenerate data config r).
  { intros e [-> | He]%elem_of_cons; [done|].
    apply elem_of_app in He as [He|He].
    - by apply async_events_plain in He as (_ & _ & ? & ?).
    - by apply list_elem_of_singleton in He as ->. }
  split; [|split; [|split]].
  - rewrite app_assoc, app_comm_cons. apply elem_of_app. right. by left.
  - done.
  - intros path client r Hinst.
    rewrite app_assoc, app_comm_cons in Hinst.
    apply elem_of_app in Hinst as [Hinst|Hinst].
    + by apply Hplain in Hinst as [? _].
    + by apply list_elem_of_singleton in Hinst.
  - intros data config r Hgen.
    rewrite app_assoc, app_comm_cons in Hgen.
    apply elem_of_app in Hgen as [Hgen|Hgen].
    + apply Hplain in Hgen as [_ Hgen]. by eapply Hgen.
    + by apply list_elem_of_singleton in Hgen.
Qed.

Lemma createClient_status_error_witness :
  let arguments :=
    [VString "x"; VString "http://api/x.raml"; VUndefined; sample_done] in
  let xhr := AjaxReply VNull 404 "#%RAML 0.8" in
  let error := VError "Received status code 404 loading http://api/x.raml" in
  let evs :=
    [EvTimeout Infinity;
     EvAjax "http://api/x.raml" VUndefined accept_header (Some xhr);
     EvCall sample_done [error]] in
  trace (API.createClient (sample_host 404 false) arguments sample_state).2
    = trace sample_state ++ evs ∧
  EvCall sample_done [error] ∈ evs ∧
  filter is_call evs = [EvCall sample_done [error]] ∧
  (∀ path client r, EvInstall path client r ∉ evs) ∧
  (∀ data config r, EvGenerate data config r ∉ evs).
Proof.
  intros arguments xhr error evs. split; [reflexivity|].
  refine (proj2 (proj2
    (createClient_status_error (sample_host 404 false) arguments
       "x" "http://api/x.raml" sample_state evs
       "http://api/x.raml" VUndefined accept_header xhr []
       eq_refl eq_refl eq_refl eq_refl eq_refl eq_refl _))).
  vm_compute. discriminate.
Defined.

(** C5.  In a call of [createClient] with a callable completion handle, if
    the description was loaded and the client generator threw [e], the
    handle is called, once, with [e], and nothing is installed into the
    window. *)
Theorem createClient_generator_error (App : host) (arguments : list value)
    (name url : string) (st : state) (evs : list event)
    (data config e : value) :
  let handle := completion_handle App (arg 2 arguments) (arg 3 arguments) in
  arg 0 arguments = VString name →
  arg 1 arguments = VString url →
  is_function handle = true →
  trace (API.createClient App arguments st).2 = trace st ++ evs →
  EvGenerate data config (Throw e) ∈ evs →
  EvCall handle [e] ∈ evs ∧
  filter is_call evs = [EvCall handle [e]] ∧
  (∀ path client r, EvInstall path client r ∉ evs).
Proof.
  intros handle Hname Hurl Hhandle Hevs Hin. subst handle.
  destruct (createClient_run_parts App arguments name url st evs
              Hname Hurl Hevs)
    as (o & load_evs & tail & -> & Hcalls & Hload & Hpath).
  assert (Hplain : ∀ ev,
    ev ∈ EvTimeout Infinity ::
           async_events App (arg 2 arguments) (arg 3 arguments) ++ load_evs →
    is_install ev = false ∧ ∀ d c r, ev ≠ EvGenerate d c r).
  { intros ev [-> | He]%elem_of_cons; [done|].
    apply elem_of_app in He as [He|He].
    - by apply async_events_plain in He as (_ & _ & ? & ?).
    - apply (load_path_ajax _ _ _ _ Hload) in He. by destruct ev. }
  rewrite app_assoc, app_comm_cons in Hin.
  apply elem_of_app in Hin as [Hin|Hin].
  { apply Hplain in Hin as [_ Hin]. by edestruct Hin. }
  assert (Htail : tail = EvGenerate data config (Throw e) ::
                           [EvCall (completion_handle App (arg 2 arguments)
                                      (arg 3 arguments)) [e]]).
  { revert Hin. inversion Hpath; subst; unfold calls; rewrite ?Hhandle;
      intros Hin;
      repeat (apply elem_of_cons in Hin as [Heq | Hin];
              [by simplify_eq|]);
      by apply not_elem_of_nil in Hin. }
  subst tail. split; [|split].
  - rewrite app_assoc, app_comm_cons. apply elem_of_app. right. right. left.
  - by rewrite Hcalls.
  - intros path client r Hinst. rewrite app_assoc, app_comm_cons in Hinst.
    apply elem_of_app in Hinst as [Hinst|Hinst].
    + by apply Hplain in Hinst as [? _].
    + repeat (apply elem_of_cons in Hinst as [? | Hinst]; [done|]).
      by apply not_elem_of_nil in Hinst.
Qed.

Lemma createClient_generator_error_witness :
  let arguments :=
    [VString "x"; VString "http://api/x.raml"; VUndefined; sample_done] in
  let xhr := AjaxReply VNull 200 "#%RAML 0.8" in
  let e := VError "Malformed schema" in
  let evs :=
    [EvTimeout Infinity;
     EvAjax "http://api/x.raml" VUndefined accept_header (Some xhr);
     EvGenerate (VString "#%RAML 0.8") (VObject 4) (Throw e);
     EvCall sample_done [e]] in
  trace (API.createClient (sample_host 200 true) arguments sample_state).2
    = trace sample_state ++ evs ∧
  EvCall sample_done [e] ∈ evs ∧
  filter is_call evs = [EvCall sample_done [e]] ∧
  (∀ path client r, EvInstall path client r ∉ evs).
Proof.
  intros arguments xhr e evs. split; [reflexivity|].
  refine (createClient_generator_error (sample_host 200 true) arguments
            "x" "http://api/x.raml" sample_state evs
            (VString "#%RAML 0.8") (VObject 4) e
            eq_refl eq_refl eq_refl eq_refl _).
  right. right. left.
Defined.

(** ** Traces only grow *)

Lemma extends_same {A} (m : M A) :
  (∀ st, trace (m st).2 = trace st) → extends m.
Proof. intros H st. exists []. by rewrite app_nil_r. Qed.

Lemma extends_bind {A B} (m : M A) (f : A → M B) :
  extends m → (∀ a, extends (f a)) → extends (bind m f).
Proof.
  intros Hm Hf st. unfold bind. destruct (Hm st) as [evs1 H1].
  destruct (m st) as [[a|e] st1]; cbn [snd] in *.
  - destruct (Hf a st1) as [evs2 H2]. exists (evs1 ++ evs2).
    by rewrite H2, H1, app_assoc.
  - by exists evs1.
Qed.

Lemma extends_settle_quietly {A} (m : M A) :
  extends m → extends (settle_quietly m).
Proof. intros Hm st. exact (Hm st). Qed.

Lemma extends_for_each {A} (xs : list A) (body : A → M unit) :
  (∀ x, extends (body x)) → extends (for_each xs body).
Proof.
  intros Hbody. induction xs as [|x xs IH]; cbn [for_each].
  - intros st. exists []. by rewrite app_nil_r.
  - apply extends_bind; [apply Hbody | intros _; apply IH].
Qed.

Lemma extends_ret {A} (a : A) : extends (ret a).
Proof. by apply extends_same. Qed.

Lemma extends_get_prop o k : extends (get_prop o k).
Proof. apply extends_same. intros st. by destruct o. Qed.

Lemma set_prop_trace o k v st : trace (set_prop o k v st).2 = trace st.
Proof. destruct o; run_M; try done; by case_match. Qed.

Lemma extends_set_prop o k v : extends (set_prop o k v).
Proof. apply extends_same. apply set_prop_trace. Qed.

Lemma extends_own_keys o : extends (own_keys o).
Proof. apply extends_same. intros st. by destruct o. Qed.

Lemma extends_call f args : extends (call f args).
Proof.
  intros st. destruct (call_run f args st) as [r ->]. by eexists.
Qed.

Lemma extends_extend obj source : extends (_extend obj source).
Proof.
  unfold _extend. apply extends_bind; [|intros; apply extends_ret].
  destruct (truthy source); [|apply extends_ret].
  apply extends_bind; [apply extends_own_keys|]. intros ks.
  apply extends_for_each. intros prop.
  apply extends_bind; [apply extends_get_prop|]. intros v.
  apply extends_set_prop.
Qed.

Lemma extends_cb done clientOption a : extends (API.cb done clientOption a).
Proof.
  unfold API.cb. destruct (truthy (cb_err a)); [apply extends_call|].
  apply extends_bind; [apply extends_get_prop|]. intros authentication.
  apply extends_bind; [apply extends_get_prop|]. intros scheme_type.
  apply extends_bind; [apply extends_extend|]. intros bundle.
  apply extends_bind; [apply extends_set_prop|]. intros _.
  apply extends_call.
Qed.

(** ** Runs of [authenticate] *)

Section AuthenticateLemmas.

Context (App : host).

Lemma client_option_inv h c lco :
  client_option h c = Some lco →
  ∀ st, heap_of st = h →
        get_prop c "!client" st = (Normal (VObject lco), st).
Proof.
  unfold client_option. intros Hc st <-.
  destruct c as [| | | | | |l|l|]; try discriminate;
    destruct ((heap_of st !!! l) !! "!client") as [[| | | | | |l'| |]|] eqn:E;
    try discriminate; simplify_eq; run_M; by rewrite E.
Qed.

(** [authenticate] on a client: the timeout, the handle from the sandbox
    if none was passed, the authenticator, and [cb] for each of its
    calls. *)
Lemma authenticate_run (arguments : list value) st lco :
  client_option (heap_of st) (arg 0 arguments) = Some lco →
  let method := arg 1 arguments in
  let options := arg 2 arguments in
  let done := arg 3 arguments in
  let handle := completion_handle App VUndefined done in
  let securedBy := default VUndefined (props_at st lco !! "securedBy") in
  let securitySchemes :=
    default VUndefined (props_at st lco !! "securitySchemes") in
  let outcome :=
    authenticate App securedBy securitySchemes method options (heap_of st) in
  API.authenticate App arguments st
  = (outcome.2,
     (for_each outcome.1.2
        (λ a, settle_quietly (API.cb handle (VObject lco) a))
        (State outcome.1.1
           (trace st ++ EvTimeout (Millis (10 * 60 * 1000)) ::
              async_events App VUndefined done ++
              [EvAuthenticate securedBy securitySchemes method options
                              outcome.1.2]))).2).
Proof.
  intros Hc. cbv zeta. unfold API.authenticate.
  unfold completion_handle, async_events. cbn [is_function orb].
  unfold bind at 1, executeContext_timeout, emit. unfold bind at 1.
  assert (Hstep : ∀ handle st1,
    heap_of st1 = heap_of st →
    (let* clientOption := get_prop (arg 0 arguments) "!client" in
     let* securedBy := get_prop clientOption "securedBy" in
     let* securitySchemes := get_prop clientOption "securitySchemes" in
     authenticate_call App securedBy securitySchemes (arg 1 arguments)
       (arg 2 arguments) (API.cb handle clientOption)) st1
    = (let outcome :=
         authenticate App
           (default VUndefined (props_at st lco !! "securedBy"))
           (default VUndefined (props_at st lco !! "securitySchemes"))
           (arg 1 arguments) (arg 2 arguments) (heap_of st) in
       (outcome.2,
        (for_each outcome.1.2
           (λ a, settle_quietly (API.cb handle (VObject lco) a))
           (State outcome.1.1
              (trace st1 ++
                 [EvAuthenticate
                    (default VUndefined (props_at st lco !! "securedBy"))
                    (default VUndefined
                       (props_at st lco !! "securitySchemes"))
                    (arg 1 arguments) (arg 2 arguments) outcome.1.2]))).2))).
  { intros handle st1 Hheap. unfold bind at 1.
    rewrite (client_option_inv _ _ _ Hc st1 Hheap).
    run_M. unfold authenticate_call, props_at. rewrite Hheap.
    by destruct (authenticate App _ _ _ _ _) as [[h callbacks] r]. }
  destruct (truthy (arg 3 arguments)).
  - unfold ret at 1. rewrite Hstep by done. cbn [trace].
    by rewrite <- app_assoc.
  - unfold executeContext_async_call, bind at 1, emit, ret at 1.
    cbn beta iota zeta. rewrite Hstep by done. cbn [trace].
    by rewrite <- !app_assoc.
Qed.

Lemma for_each_quiet {A} (xs : list A) (body : A → M unit) :
  (∀ x st, ∃ st', body x st = (Normal tt, st') ∧ trace st' = trace st) →
  ∀ st, ∃ st', for_each xs body st = (Normal tt, st') ∧ trace st' = trace st.
Proof.
  intros Hbody. induction xs as [|x xs IH]; intros st; cbn [for_each].
  - by exists st.
  - unfold bind. destruct (Hbody x st) as (st1 & -> & H1).
    destruct (IH st1) as (st2 & -> & H2). exists st2. split; [done|].
    congruence.
Qed.

(** A write to a target that is neither [null] nor [undefined] returns
    and logs nothing. *)
Lemma set_prop_quiet obj k v st :
  nullish obj = false →
  ∃ st', set_prop obj k v st = (Normal tt, st') ∧ trace st' = trace st.
Proof.
  intros Hobj. destruct obj; try discriminate; run_M; eauto;
    case_match; eauto.
Qed.

(** [_.extend] into a target that is neither [null] nor [undefined]
    returns the target and logs nothing. *)
Lemma extend_quiet obj source st :
  nullish obj = false →
  ∃ st', _extend obj source st = (Normal obj, st') ∧ trace st' = trace st.
Proof.
  intros Hobj. unfold _extend. unfold bind at 1.
  destruct (truthy source) eqn:Hsource; [|by exists st].
  unfold bind at 1.
  assert (∃ ks, own_keys source st = (Normal ks, st)) as [ks ->]
    by (destruct source; run_M; eauto).
  destruct (for_each_quiet ks
              (λ prop, let* v := get_prop source prop in set_prop obj prop v))
    with (st := st) as (st' & -> & Htrace); [|by exists st'].
  intros prop st1. unfold bind.
  destruct (get_prop_cases source prop st1) as [Hthrow | [v ->]].
  { destruct source; discriminate. }
  by apply set_prop_quiet.
Qed.

(** [cb] with an error: the error goes to [done], nothing is stored. *)
Lemma cb_error done clientOption a st :
  truthy (cb_err a) = true →
  is_function done = true →
  API.cb done clientOption a st
  = (Normal VUndefined,
     State (heap_of st) (trace st ++ [EvCall done [cb_err a]])).
Proof.
  intros Herr Hdone. unfold API.cb. rewrite Herr.
  unfold call. rewrite Hdone. by run_M.
Qed.

(** [cb] without an error, when scheme, options and authentication map
    are there: [done] receives the tokens. *)
Lemma cb_calls_done done lco a st :
  truthy (cb_err a) = false →
  is_function done = true →
  nullish (cb_scheme a) = false →
  nullish (cb_options a) = false →
  nullish (default VUndefined (props_at st lco !! "authentication")) = false →
  ∃ st', API.cb done (VObject lco) a st = (Normal VUndefined, st') ∧
         trace st' = trace st ++ [EvCall done [VNull; cb_tokens a]].
Proof.
  intros Herr Hdone Hscheme Hoptions Hauth. unfold API.cb. rewrite Herr.
  unfold bind at 1.
  replace (get_prop (VObject lco) "authentication" st)
    with (Normal (default VUndefined (props_at st lco !! "authentication")),
          st) by done.
  set (authentication := default VUndefined _) in *.
  unfold bind at 1.
  destruct (get_prop_cases (cb_scheme a) "type" st) as [Hthrow | [ty ->]].
  { destruct (cb_scheme a); discriminate. }
  unfold bind at 1.
  destruct (extend_quiet (cb_options a) (cb_tokens a) st Hoptions)
    as (st1 & -> & Htrace1).
  unfold bind at 1.
  assert (∃ st2, set_prop authentication (to_key ty) (cb_options a) st1
                 = (Normal tt, st2) ∧ trace st2 = trace st1)
    as (st2 & -> & Htrace2) by by apply set_prop_quiet.
  unfold call. rewrite Hdone. run_M.
  eexists. split; [done|]. cbn [trace]. congruence.
Qed.


End AuthenticateLemmas.

Lemma extends_authenticate_call App securedBy securitySchemes method options
    (cb : cb_args → M value) :
  (∀ a, extends (cb a)) →
  extends (authenticate_call App securedBy securitySchemes method options cb).
Proof.
  intros Hcb st. unfold authenticate_call.
  destruct (authenticate App _ _ _ _ _) as [[h callbacks] r]. cbn [snd].
  destruct (extends_for_each callbacks (λ a, settle_quietly (cb a))
              (λ a, extends_settle_quietly _ (Hcb a))
              (State h (trace st ++
                 [EvAuthenticate securedBy securitySchemes method options
                                 callbacks])))
    as [evs ->].
  cbn [trace]. rewrite <- app_assoc. by eexists.
Qed.

(** ** Storing the tokens *)




(** ** The completion handle *)

(** C8, as stated, fails: on the path where argument validation throws,
    the completion handle that was passed is invoked zero times. *)
Lemma createClient_invalid_url_never_completes :
  let run := API.createClient (sample_host 200 false)
               [VString "x"; VNumber 123; VUndefined; sample_done]
               sample_state in
  run.1 = Throw (VError "Provide a URL for the x RAML document") ∧
  filter is_call (trace run.2) = [].
Proof. split; reflexivity. Qed.

(** C8, amended.  [createClient], called with a string name and a string
    URL, and [authenticate], called on a client, take the completion handle
    from the sandbox when none is passed.  If the handle is callable then
    - in [createClient], when every request of the load is answered, the
      handle is called exactly once, with one argument (an error) or with
      [null] and a payload;
    - in [authenticate], when the authenticator calls back once, either
      with an error or with a scheme, options and an authentication map to
      store into, the handle is called exactly once, with the error alone
      or with [null] and the tokens. *)
Theorem completion_handle_called_once (App : host) :
  (∀ (arguments : list value) (name url : string) (st : state)
     (evs : list event),
     let config := arg 2 arguments in
     let done := arg 3 arguments in
     let handle := completion_handle App config done in
     arg 0 arguments = VString name →
     arg 1 arguments = VString url →
     is_function handle = true →
     trace (API.createClient App arguments st).2 = trace st ++ evs →
     (∀ read_url proxy headers, EvAjax read_url proxy headers None ∉ evs) →
     (is_function config = false → truthy done = false →
      EvAsync handle ∈ evs) ∧
     ∃ args,
       filter is_call evs = [EvCall handle args] ∧
       ((∃ e, args = [e]) ∨ (∃ payload, args = [VNull; payload]))) ∧
  (∀ (client method options done : value) (st : state) (lco : positive)
     (h : heap) (a : cb_args)
     (r : completion value) (evs : list event),
     let handle := completion_handle App VUndefined done in
     let securedBy := default VUndefined (props_at st lco !! "securedBy") in
     let securitySchemes :=
       default VUndefined (props_at st lco !! "securitySchemes") in
     client_option (heap_of st) client = Some lco →
     authenticate App securedBy securitySchemes method options (heap_of st)
       = (h, [a], r) →
     is_function handle = true →
     (truthy (cb_err a) = true ∨
      (nullish (cb_scheme a) = false ∧ nullish (cb_options a) = false ∧
       nullish (default VUndefined ((h !!! lco) !! "authentication"))
         = false)) →
     trace (API.authenticate App [client; method; options; done] st).2
       = trace st ++ evs →
     (truthy done = false → EvAsync handle ∈ evs) ∧
     filter is_call evs =
       [EvCall handle (if truthy (cb_err a) then [cb_err a]
                       else [VNull; cb_tokens a])]).
Proof.
  split.
  - intros arguments name url st evs config done handle Hname Hurl Hhandle
      Hevs Hanswered.
    destruct (createClient_run_parts App arguments name url st evs
                Hname Hurl Hevs)
      as (o & load_evs & tail & Heq & Hcalls & Hload & Hpath).
    fold config done handle in Heq, Hpath. split.
    + intros Hconfig Hdone. rewrite Heq. unfold async_events.
      replace handle with (VFunction (executeContext_async App))
        by (unfold handle, completion_handle; by rewrite Hconfig, Hdone).
      rewrite Hconfig, Hdone. cbn [orb app]. right. left.
    + assert (Hsettled : o ≠ Pending).
      { apply (load_path_answered _ _ _ Hload). intros u p hd Hin.
        apply (Hanswered u p hd). rewrite Heq. right.
        apply elem_of_app. right. apply elem_of_app. by left. }
      rewrite Hcalls.
      inversion Hpath; subst; try done; unfold calls; rewrite Hhandle;
        eexists; (split; [reflexivity|]); eauto.
  - intros client method options done st lco h a r evs handle securedBy
      securitySchemes Hc Horacle Hhandle Hcb Hevs.
    rewrite (authenticate_run App [client; method; options; done] st lco Hc)
      in Hevs.
    unfold arg in Hevs. cbn [nth] in Hevs.
    fold securedBy securitySchemes handle in Hevs.
    rewrite Horacle in Hevs. cbn [fst snd for_each] in Hevs.
    unfold bind at 1, settle_quietly, ret in Hevs. cbn [snd] in Hevs.
    assert (Htrace : ∀ st1,
      heap_of st1 = h →
      trace (API.cb handle (VObject lco) a st1).2
      = trace st1 ++ [EvCall handle (if truthy (cb_err a) then [cb_err a]
                                     else [VNull; cb_tokens a])]).
    { intros st1 Hst1. destruct (truthy (cb_err a)) eqn:Herr.
      - by rewrite cb_error.
      - destruct Hcb as [? | (Hscheme & Hoptions & Hauth)]; [done|].
        destruct (cb_calls_done handle lco a st1 Herr Hhandle Hscheme
                    Hoptions) as (st2 & -> & Htrace); [|done].
        unfold props_at. by rewrite Hst1. }
    rewrite Htrace in Hevs by done. cbn [trace] in Hevs.
    rewrite <- app_assoc in Hevs. apply app_inv_head in Hevs. subst evs.
    unfold async_events, handle, completion_handle. cbn [is_function orb].
    destruct (truthy done); (split; [try done|]).
    + done.
    + intros _. right. left.
    + done.
Qed.

Lemma completion_handle_called_once_witness :
  let arguments := [VString "x"; VString "http://api/x.raml"] in
  let handle := VFunction 100 in
  let xhr := AjaxReply VNull 200 "#%RAML 0.8" in
  let evs :=
    [EvTimeout Infinity; EvAsync handle;
     EvAjax "http://api/x.raml" VUndefined accept_header (Some xhr);
     EvGenerate (VString "#%RAML 0.8") (VObject 4) (Normal (VFunction 60));
     EvInstall ["x"] (VFunction 60) (Normal tt);
     EvCall handle
       [VNull;
        VString "Create a new code cell and type 'x.' to explore this API."]]
  in
  let a := CbArgs VNull (VObject 10) (VObject 12) (VObject 11) in
  let auth_evs :=
    [EvTimeout (Millis 600000);
     EvAuthenticate VUndefined VUndefined VUndefined (VObject 12) [a];
     EvCall sample_done [VNull; VObject 11]] in
  (trace (API.createClient (sample_host 200 false) arguments sample_state).2
     = trace sample_state ++ evs ∧
   EvAsync handle ∈ evs ∧
   ∃ args,
     filter is_call evs = [EvCall handle args] ∧
     ((∃ e, args = [e]) ∨ (∃ payload, args = [VNull; payload]))) ∧
  (trace (API.authenticate (sample_host 200 false)
            [VFunction 1; VUndefined; VObject 12; sample_done] auth_state).2
     = trace auth_state ++ auth_evs ∧
   filter is_call auth_evs = [EvCall sample_done [VNull; VObject 11]]).
Proof.
  intros arguments handle xhr evs a auth_evs.
  pose proof (completion_handle_called_once (sample_host 200 false))
    as [Hcreate Hauth].
  split.
  - split; [reflexivity|].
    destruct (Hcreate arguments "x" "http://api/x.raml" sample_state evs
                eq_refl eq_refl eq_refl eq_refl) as [Hasync Hcalls].
    + intros read_url proxy headers Hin.
      repeat (apply elem_of_cons in Hin as [Hin|Hin]; [discriminate|]).
      by apply not_elem_of_nil in Hin.
    + split; [by apply Hasync | exact Hcalls].
  - split; [reflexivity|].
    refine (proj2 (Hauth (VFunction 1) VUndefined (VObject 12) sample_done
                     auth_state 2%positive auth_heap a (Normal VUndefined)
                     auth_evs eq_refl eq_refl eq_refl _ eq_refl)).
    right. repeat split; reflexivity.
Defined.

(** ** Timeouts *)

(** C9, as stated, fails: an invocation of [createClient] that does not
    pass argument validation sets no timeout. *)
Lemma createClient_invalid_name_sets_no_timeout :
  let run := API.createClient (sample_host 200 false)
               [VNumber 1; VString "http://api/x.raml"] sample_state in
  run.1 = Throw (VError "Provide a name for the generated client") ∧
  ∀ d, EvTimeout d ∉ trace run.2.
Proof.
  split; [reflexivity|]. intros d Hin. vm_compute in Hin.
  by apply not_elem_of_nil in Hin.
Qed.

(** C9, amended.  Every invocation of [createClient] with a string name
    and a string URL first sets the sandbox timeout to [Infinity]; every
    invocation of [authenticate] first sets it to 10 * 60 * 1000
    milliseconds, that is ten minutes. *)
Theorem timeouts (App : host) (arguments : list value) (st : state) :
  (∀ name url,
     arg 0 arguments = VString name →
     arg 1 arguments = VString url →
     ∃ rest, trace (API.createClient App arguments st).2
             = trace st ++ EvTimeout Infinity :: rest) ∧
  (∃ rest, trace (API.authenticate App arguments st).2
           = trace st ++ EvTimeout (Millis 600000) :: rest) ∧
  600000 = 10 * (60 * 1000).
Proof.
  split; [|split; [|done]].
  - intros name url Hname Hurl.
    destruct (createClient_paths App arguments name url st Hname Hurl)
      as (st' & o & load_evs & tail & Hrun & Htrace & _).
    rewrite Hrun. cbn [snd]. rewrite Htrace. by eexists.
  - unfold API.authenticate. unfold bind at 1, executeContext_timeout, emit.
    match goal with |- context [bind ?m ?f ?s] =>
      destruct (extends_bind m f) with (st := s) as [rest ->] end.
    + destruct (truthy (arg 3 arguments)); [apply extends_ret|].
      unfold executeContext_async_call.
      apply extends_bind; [|intros; apply extends_ret].
      intros st1. by eexists.
    + intros handle.
      apply extends_bind; [apply extends_get_prop|]. intros clientOption.
      apply extends_bind; [apply extends_get_prop|]. intros securedBy.
      apply extends_bind; [apply extends_get_prop|]. intros securitySchemes.
      apply extends_authenticate_call. intros a. apply extends_cb.
    + cbn [trace]. rewrite <- app_assoc. by eexists.
Qed.

Lemma timeouts_witness :
  ∃ rest,
    trace (API.createClient (sample_host 200 false)
             [VString "x"; VString "http://api/x.raml"] sample_state).2
    = trace sample_state ++ EvTimeout Infinity :: rest.
Proof.
  exact (proj1 (timeouts (sample_host 200 false)
                  [VString "x"; VString "http://api/x.raml"] sample_state)
           "x" "http://api/x.raml" eq_refl eq_refl).
Defined.

(** * Further properties of the facade *)

(** ** The configuration operations never reach a collaborator *)

Lemma no_effect_bind {A B} (m : M A) (f : A → M B) :
  no_effect m → (∀ a, no_effect (f a)) → no_effect (bind m f).
Proof.
  intros Hm Hf st. unfold bind. specialize (Hm st).
  destruct (m st) as [[a|e] st1]; cbn [snd] in *; subst; [apply Hf | done].
Qed.

Lemma no_effect_get_prop o k : no_effect (get_prop o k).
Proof. intros st. by destruct o. Qed.

Lemma keeps_trace_bind {A B} (m : M A) (f : A → M B) :
  keeps_trace m → (∀ a, keeps_trace (f a)) → keeps_trace (bind m f).
Proof.
  intros Hm Hf st. unfold bind. specialize (Hm st).
  destruct (m st) as [[a|e] st1]; cbn [snd] in *; [|done].
  by rewrite Hf.
Qed.

Lemma keeps_trace_ret {A} (a : A) : keeps_trace (ret a).
Proof. done. Qed.

Lemma keeps_trace_get_prop o k : keeps_trace (get_prop o k).
Proof. intros st. by destruct o. Qed.

Lemma keeps_trace_set_prop o k v : keeps_trace (set_prop o k v).
Proof. intros st. apply set_prop_trace. Qed.

Lemma keeps_trace_has_prop o k : keeps_trace (has_prop o k).
Proof. intros st. by destruct o. Qed.

Lemma keeps_trace_delete_prop o k : keeps_trace (delete_prop o k).
Proof. intros st. by destruct o. Qed.

Lemma keeps_trace_own_keys o : keeps_trace (own_keys o).
Proof. intros st. by destruct o. Qed.

Lemma keeps_trace_for_each {A} (xs : list A) (body : A → M unit) :
  (∀ x, keeps_trace (body x)) → keeps_trace (for_each xs body).
Proof.
  intros Hbody. induction xs as [|x xs IH]; cbn [for_each]; [done|].
  apply keeps_trace_bind; [apply Hbody | intros _; apply IH].
Qed.

Lemma keeps_trace_extend obj source : keeps_trace (_extend obj source).
Proof.
  unfold _extend. apply keeps_trace_bind; [|intros; apply keeps_trace_ret].
  destruct (truthy source); [|apply keeps_trace_ret].
  apply keeps_trace_bind; [apply keeps_trace_own_keys|]. intros ks.
  apply keeps_trace_for_each. intros prop.
  apply keeps_trace_bind; [apply keeps_trace_get_prop|]. intros v.
  apply keeps_trace_set_prop.
Qed.

Lemma keeps_trace_each obj (iterator : value → value → value → M unit) :
  (∀ v key o, keeps_trace (iterator v key o)) →
  keeps_trace (_each obj iterator).
Proof.
  intros Hiterator. unfold _each.
  destruct (nullish obj); [apply keeps_trace_ret|].
  apply keeps_trace_bind; [apply keeps_trace_get_prop|]. intros forEach.
  destruct (bool_decide (forEach = nativeForEach)).
  - unfold Array_forEach.
    apply keeps_trace_bind; [apply keeps_trace_get_prop|]. intros length.
    apply keeps_trace_for_each. intros i.
    apply keeps_trace_bind; [apply keeps_trace_has_prop|]. intros [|].
    + apply keeps_trace_bind; [apply keeps_trace_get_prop|]. intros v.
      apply Hiterator.
    + apply keeps_trace_ret.
  - apply keeps_trace_bind; [apply keeps_trace_get_prop|]. intros length.
    assert (Hkeys : keeps_trace
      (let* keys := own_keys obj in
       for_each keys
         (λ key, let* v := get_prop obj key in
                 iterator v (VString key) obj))).
    { apply keeps_trace_bind; [apply keeps_trace_own_keys|]. intros ks.
      apply keeps_trace_for_each. intros key.
      apply keeps_trace_bind; [apply keeps_trace_get_prop|]. intros v.
      apply Hiterator. }
    destruct length; try exact Hkeys.
    apply keeps_trace_for_each. intros i.
    apply keeps_trace_bind; [apply keeps_trace_get_prop|]. intros v.
    apply Hiterator.
Qed.

(** Whatever the arguments, [get] leaves store and trace as they are, and
    [set] and [unset] log nothing: the configuration operations never set
    a timeout, take a handle, make a request or call a callback. *)
Theorem config_operations_log_nothing (arguments : list value) (st : state) :
  (API.get arguments st).2 = st ∧
  trace (API.set arguments st).2 = trace st ∧
  trace (API.unset arguments st).2 = trace st.
Proof.
  split; [|split].
  - revert st. change (no_effect (API.get arguments)). unfold API.get.
    destruct (length arguments <? 2)%nat; [apply no_effect_get_prop|].
    apply no_effect_bind; [apply no_effect_get_prop|]. intros config.
    apply no_effect_get_prop.
  - revert st. change (keeps_trace (API.set arguments)). unfold API.set.
    destruct (length arguments <? 3)%nat;
      (apply keeps_trace_bind; [apply keeps_trace_get_prop|]); intros config.
    + apply keeps_trace_extend.
    + apply keeps_trace_bind; [apply keeps_trace_set_prop|].
      intros _. apply keeps_trace_ret.
  - revert st. change (keeps_trace (API.unset arguments)). unfold API.unset.
    destruct (length arguments <? 2)%nat;
      (apply keeps_trace_bind; [apply keeps_trace_get_prop|]); intros config.
    + apply keeps_trace_bind; [|intros; apply keeps_trace_ret].
      apply keeps_trace_each. intros v key o.
      apply keeps_trace_bind; [apply keeps_trace_delete_prop|].
      intros _. apply keeps_trace_ret.
    + apply keeps_trace_delete_prop.
Qed.

(** ** The configuration operations: frame, overwrite, round trip *)

(** A write to an object of the store adds or replaces the one property,
    or, taken by the inherited accessor, changes no property at all. *)
Lemma set_prop_object_cases l k v st :
  set_prop (VObject l) k v st = (Normal tt, st) ∨
  set_prop (VObject l) k v st
  = (Normal tt,
     State (<[l := <[k := v]> (props_at st l)]> (heap_of st)) (trace st)).
Proof. run_M. case_match; [left | right]; done. Qed.

(** [set(c, k, v)] touches one key of one object: every other key of the
    configuration, and every other object of the store, is as before; so,
    unless [k] is ['__proto__'], [get(c, k')] for another key returns what
    it returned before. *)
Theorem set_changes_one_key (st : state) (c : value) (lc : positive)
    (k : string) (v : value) :
  client_config (heap_of st) c = Some lc →
  let st' := (API.set [c; VString k; v] st).2 in
  (∀ k', k' ≠ k → props_at st' lc !! k' = props_at st lc !! k') ∧
  (∀ l, l ≠ lc → heap_of st' !! l = heap_of st !! l) ∧
  (k ≠ "__proto__" →
   ∀ k', k' ≠ k →
     (API.get [c; VString k'] st').1 = (API.get [c; VString k'] st).1).
Proof.
  intros Hc st'. subst st'. rewrite (set_key_through _ _ _ _ _ Hc). cbn [snd].
  assert (Hkeys : ∀ st1,
    st1 = State (<[lc := <[k := v]> (props_at st lc)]> (heap_of st))
                (trace st) →
    ∀ k', k' ≠ k → props_at st1 lc !! k' = props_at st lc !! k').
  { intros st1 -> k' Hk'. unfold props_at at 1. cbn [heap_of].
    by rewrite lookup_total_insert_eq, lookup_insert_ne. }
  split; [|split].
  - destruct (set_prop_object_cases lc k v st) as [-> | ->]; [done|].
    by apply Hkeys.
  - intros l Hl.
    destruct (set_prop_object_cases lc k v st) as [-> | ->]; [done|].
    cbn [heap_of snd]. by rewrite lookup_insert_ne.
  - intros Hk k' Hk'. rewrite (set_prop_object _ _ _ _ Hk). cbn [snd].
    rewrite (get_key_spec _ c lc)
      by (cbn [heap_of]; by apply client_config_update).
    rewrite (get_key_spec _ _ _ _ Hc). cbn [fst]. by rewrite (Hkeys _ eq_refl).
Qed.

Lemma set_changes_one_key_witness :
  client_config (heap_of sample_state) sample_client = Some 2%positive ∧
  (API.get [sample_client; VString "x"]
     (API.set [sample_client; VString "k"; VString "v"] sample_state).2).1
  = (API.get [sample_client; VString "x"] sample_state).1.
Proof.
  split; [reflexivity|].
  pose proof (set_changes_one_key sample_state sample_client 2 "k"
                (VString "v") eq_refl) as (_ & _ & Hget).
  apply Hget; discriminate.
Defined.

(** [unset(c, k)] touches one key of one object, in the same way. *)
Theorem unset_changes_one_key (st : state) (c : value) (lc : positive)
    (k : string) :
  client_config (heap_of st) c = Some lc →
  let st' := (API.unset [c; VString k] st).2 in
  (∀ k', k' ≠ k → props_at st' lc !! k' = props_at st lc !! k') ∧
  (∀ l, l ≠ lc → heap_of st' !! l = heap_of st !! l) ∧
  (∀ k', k' ≠ k →
     (API.get [c; VString k'] st').1 = (API.get [c; VString k'] st).1).
Proof.
  intros Hc st'. subst st'. rewrite (unset_key_spec _ _ _ _ Hc). cbn [snd].
  set (st1 := State _ _).
  assert (Hc1 : client_config (heap_of st1) c = Some lc)
    by by apply client_config_update.
  assert (Hkeys : ∀ k', k' ≠ k → props_at st1 lc !! k' = props_at st lc !! k').
  { intros k' Hk'. unfold props_at at 1, st1. cbn [heap_of].
    by rewrite lookup_total_insert_eq, lookup_delete_ne. }
  split; [done|]. split.
  - intros l Hl. unfold st1. cbn [heap_of]. by rewrite lookup_insert_ne.
  - intros k' Hk'.
    rewrite (get_key_spec _ _ _ _ Hc1), (get_key_spec _ _ _ _ Hc).
    cbn [fst]. by rewrite Hkeys.
Qed.

Lemma unset_changes_one_key_witness :
  client_config (heap_of sample_state) sample_client = Some 2%positive ∧
  (API.get [sample_client; VString "x"]
     (API.unset [sample_client; VString "k"] sample_state).2).1
  = (API.get [sample_client; VString "x"] sample_state).1.
Proof.
  split; [reflexivity|].
  pose proof (unset_changes_one_key sample_state sample_client 2 "k"
                eq_refl) as (_ & _ & Hget).
  apply Hget. discriminate.
Defined.

(** The last [set] of a key other than ['__proto__'] wins: setting [k] to
    [v1] and then to [v2] leaves the same state as setting it to [v2] at
    once.  In particular a repeated [set] changes nothing more. *)
Theorem set_last_write_wins (st : state) (c : value) (lc : positive)
    (k : string) (v1 v2 : value) :
  client_config (heap_of st) c = Some lc →
  k ≠ "__proto__" →
  (API.set [c; VString k; v2] (API.set [c; VString k; v1] st).2).2
  = (API.set [c; VString k; v2] st).2.
Proof.
  intros Hc Hk. rewrite (set_key_spec _ _ _ _ _ Hc Hk). cbn [snd].
  set (st1 := State _ _).
  assert (Hc1 : client_config (heap_of st1) c = Some lc)
    by by apply client_config_update.
  rewrite (set_key_spec _ _ _ _ _ Hc1 Hk), (set_key_spec _ _ _ _ _ Hc Hk).
  cbn [snd]. unfold props_at at 1, st1. cbn [heap_of trace].
  by rewrite lookup_total_insert_eq, !insert_insert_eq.
Qed.

Lemma set_last_write_wins_witness :
  client_config (heap_of sample_state) sample_client = Some 2%positive ∧
  (API.set [sample_client; VString "x"; VNumber 9]
     (API.set [sample_client; VString "x"; VNumber 8] sample_state).2).2
  = (API.set [sample_client; VString "x"; VNumber 9] sample_state).2.
Proof.
  split; [reflexivity|].
  apply (set_last_write_wins sample_state sample_client 2 "x"
           (VNumber 8) (VNumber 9) eq_refl).
  discriminate.
Defined.

(** Setting a key the configuration does not hold, other than
    ['__proto__'], and unsetting it again gives back the state one started
    from. *)
Theorem set_unset_restores (st : state) (c : value) (lc : positive)
    (k : string) (v : value) :
  client_config (heap_of st) c = Some lc →
  props_at st lc !! k = None →
  k ≠ "__proto__" →
  (API.unset [c; VString k] (API.set [c; VString k; v] st).2).2 = st.
Proof.
  intros Hc Hk Hproto. rewrite (set_key_spec _ _ _ _ _ Hc Hproto). cbn [snd].
  set (st1 := State _ _).
  assert (Hc1 : client_config (heap_of st1) c = Some lc)
    by by apply client_config_update.
  rewrite (unset_key_spec _ _ _ _ Hc1). cbn [snd].
  unfold props_at at 1, st1. cbn [heap_of trace].
  rewrite lookup_total_insert_eq, insert_insert_eq.
  rewrite delete_insert_id by done.
  destruct (client_config_inv _ _ _ Hc) as (l & cfg & _ & _ & _ & Hcfg).
  unfold props_at. rewrite (lookup_total_Some _ _ _ Hcfg).
  rewrite insert_id by done. by destruct st.
Qed.

Lemma set_unset_restores_witness :
  client_config (heap_of sample_state) sample_client = Some 2%positive ∧
  props_at sample_state 2 !! "k" = None ∧
  (API.unset [sample_client; VString "k"]
     (API.set [sample_client; VString "k"; VString "v"] sample_state).2).2
  = sample_state.
Proof.
  split; [reflexivity|]. split; [reflexivity|].
  apply (set_unset_restores sample_state sample_client 2 "k" (VString "v")
           eq_refl eq_refl).
  discriminate.
Defined.

(** The bulk form of [set] with an object that has the one property
    [k: v] leaves the same state as [set(c, k, v)]. *)
Theorem set_bulk_singleton (st : state) (c : value) (lc ls : positive)
    (k : string) (v : value) :
  client_config (heap_of st) c = Some lc →
  props_at st ls = {[ k := v ]} →
  (API.set [c; VObject ls] st).2 = (API.set [c; VString k; v] st).2.
Proof.
  intros Hc Hsource. rewrite (set_key_through _ _ _ _ _ Hc). cbn [snd].
  unfold API.set, arg. simpl. unfold bind at 1.
  rewrite (get_config _ _ _ Hc). unfold _extend. cbn [truthy].
  unfold bind at 1, bind at 1.
  replace (own_keys (VObject ls) st) with (Normal [k], st)
    by (run_M; fold (props_at st ls);
        by rewrite Hsource, map_to_list_singleton).
  cbn [for_each]. unfold bind at 1, bind at 1.
  rewrite get_prop_object, Hsource, lookup_singleton_eq.
  cbn [default from_option id].
  by destruct (set_prop_object_cases lc k v st) as [-> | ->].
Qed.

Lemma set_bulk_singleton_witness :
  let st := State (<[4%positive := {[ "k" := VString "v" ]}]> sample_heap) []
  in
  client_config (heap_of st) sample_client = Some 2%positive ∧
  props_at st 4 = {[ "k" := VString "v" ]} ∧
  (API.set [sample_client; VObject 4] st).2
  = (API.set [sample_client; VString "k"; VString "v"] st).2.
Proof.
  intros st. split; [reflexivity|]. split; [reflexivity|].
  exact (set_bulk_singleton st sample_client 2 4 "k" (VString "v")
           eq_refl eq_refl).
Defined.




(** ** The configuration operations on what is not a client *)

(** On [null] or [undefined] in place of the client, every form of [get],
    [set] and [unset] throws a [TypeError] and leaves the state as it is. *)
Theorem config_operations_without_client (arguments : list value)
    (st : state) :
  nullish (arg 0 arguments) = true →
  API.get arguments st = (Throw TypeError, st) ∧
  API.set arguments st = (Throw TypeError, st) ∧
  API.unset arguments st = (Throw TypeError, st).
Proof.
  intros Hnull. unfold API.get, API.set, API.unset.
  assert (Hget : get_prop (arg 0 arguments) "!config" st
                 = (Throw TypeError, st))
    by (destruct (arg 0 arguments); try discriminate; done).
  destruct (length arguments <? 2)%nat, (length arguments <? 3)%nat;
    unfold bind; by rewrite ?Hget.
Qed.

Lemma config_operations_without_client_witness :
  nullish (arg 0 [VUndefined; VString "k"]) = true ∧
  API.get [VUndefined; VString "k"] sample_state
    = (Throw TypeError, sample_state) ∧
  API.set [VUndefined; VString "k"] sample_state
    = (Throw TypeError, sample_state) ∧
  API.unset [VUndefined; VString "k"] sample_state
    = (Throw TypeError, sample_state).
Proof.
  split; [reflexivity|].
  exact (config_operations_without_client [VUndefined; VString "k"]
           sample_state eq_refl).
Defined.

(** On an object that has no ['!config'] property, the forms without a key
    do not fail: [get(c)] and [set(c)] return [undefined], [unset(c)]
    returns [true].  The forms with a key throw a [TypeError], and so does
    the bulk [set] of an object that has a property.  None of them changes
    the state. *)
Theorem config_operations_without_config (st : state) (c : value)
    (l ls : positive) (k : string) (v : value) :
  c = VFunction l ∨ c = VObject l →
  props_at st l !! "!config" = None →
  (API.get [c] st = (Normal VUndefined, st) ∧
   API.set [c] st = (Normal VUndefined, st) ∧
   API.unset [c] st = (Normal (VBool true), st)) ∧
  (API.get [c; VString k] st = (Throw TypeError, st) ∧
   API.set [c; VString k; v] st = (Throw TypeError, st) ∧
   API.unset [c; VString k] st = (Throw TypeError, st)) ∧
  (props_at st ls ≠ ∅ → API.set [c; VObject ls] st = (Throw TypeError, st)).
Proof.
  intros Hc Hnone.
  assert (Hget : get_prop c "!config" st = (Normal VUndefined, st)).
  { unfold props_at in Hnone. destruct Hc as [-> | ->]; run_M;
      by rewrite Hnone. }
  unfold API.get, API.set, API.unset, arg. cbn [length Nat.ltb Nat.leb nth].
  split; [|split].
  - split; [done|]. split.
    + unfold bind at 1. by rewrite Hget.
    + unfold bind at 1. by rewrite Hget.
  - unfold bind. rewrite Hget. by run_M.
  - intros Hsource. unfold bind at 1. rewrite Hget.
    unfold _extend. cbn [truthy]. unfold bind at 1, bind at 1.
    replace (own_keys (VObject ls) st)
      with (Normal (map_to_list (props_at st ls)).*1, st) by done.
    destruct (map_to_list (props_at st ls)) as [|[k0 v0] kvs] eqn:Hlist.
    { by apply map_to_list_empty_iff in Hlist. }
    cbn [fmap list_fmap fst for_each]. unfold bind at 1, bind at 1.
    destruct (get_prop_cases (VObject ls) k0 st) as [Hthrow | [v1 ->]];
      [discriminate|].
    by run_M.
Qed.

Lemma config_operations_without_config_witness :
  props_at sample_state 3 !! "!config" = None ∧
  API.unset [VObject 3] sample_state = (Normal (VBool true), sample_state) ∧
  API.unset [VObject 3; VString "a"] sample_state
    = (Throw TypeError, sample_state).
Proof.
  split; [reflexivity|].
  pose proof (config_operations_without_config sample_state (VObject 3)
                3 3 "a" VUndefined (or_intror eq_refl) eq_refl)
    as ((_ & _ & Hunset) & (_ & _ & Hkeyed) & _).
  exact (conj Hunset Hkeyed).
Defined.

(** ** More about the runs of [createClient] *)

Section CreateClientFacts.

Context (App : host).

(** The request of a read carries the proxy of the configuration and the
    [Accept] header. *)
Lemma read_file_requests config proxy url st :
  (∀ st2, heap_of st2 = heap_of st →
          get_prop config "proxy" st2 = (Normal proxy, st2)) →
  ∃ r reply,
    read_file (createReader App config) url st
    = (Normal r,
       State (heap_of st)
             (trace st ++
              [EvAjax url proxy [("Accept", "application/raml+yaml, */*")]
                 reply])).
Proof.
  intros Hproxy. unfold read_file, try_catch, createReader.
  unfold bind at 1. rewrite (Hproxy st eq_refl). unfold bind at 1, emit.
  destruct (middleware_ajax App url proxy) as [xhr|]; [|by eexists _, _].
  destruct (truthy (reply_err xhr)); [by eexists _, _|].
  destruct (negb (xhr_status xhr `div` 100 =? 2)); by eexists _, _.
Qed.

Lemma read_files_requests config proxy urls : ∀ st,
  (∀ st2, heap_of st2 = heap_of st →
          get_prop config "proxy" st2 = (Normal proxy, st2)) →
  ∃ rs evs,
    read_files (createReader App config) urls st
    = (Normal rs, State (heap_of st) (trace st ++ evs)) ∧
    Forall (is_request proxy) evs.
Proof.
  induction urls as [|url urls IH]; intros st Hproxy.
  - exists [], []. split; [|done].
    simpl. unfold ret. f_equal. symmetry. by apply state_eta.
  - cbn [read_files]. unfold bind at 1.
    destruct (read_file_requests config proxy url st Hproxy)
      as (r & reply & ->).
    unfold bind at 1.
    destruct (IH (State (heap_of st)
                    (trace st ++
                     [EvAjax url proxy
                        [("Accept", "application/raml+yaml, */*")] reply])))
      as (rs & evs & -> & Hall); [done|].
    eexists _, (_ :: evs). split.
    + unfold ret. cbn [heap_of trace]. by rewrite <- app_assoc.
    + constructor; [by eexists _, _ | done].
Qed.

Lemma run_loading_requests config proxy (s : loading) : ∀ st,
  (∀ st2, heap_of st2 = heap_of st →
          get_prop config "proxy" st2 = (Normal proxy, st2)) →
  ∃ o evs,
    run_loading (createReader App config) s st
    = (Normal o, State (heap_of st) (trace st ++ evs)) ∧
    Forall (is_request proxy) evs.
Proof.
  induction s as [data|err|urls failed k IH]; intros st Hproxy.
  - eexists _, []. split; [|done].
    simpl. unfold ret. f_equal. symmetry. by apply state_eta.
  - eexists _, []. split; [|done].
    simpl. unfold ret. f_equal. symmetry. by apply state_eta.
  - cbn [run_loading]. unfold bind at 1.
    destruct (read_files_requests config proxy urls st Hproxy)
      as (rs & evs1 & -> & Hall1).
    destruct (texts_of rs) as [texts|].
    + destruct (IH texts (State (heap_of st) (trace st ++ evs1)))
        as (o & evs2 & -> & Hall2); [done|].
      exists o, (evs1 ++ evs2). split.
      * cbn [heap_of trace]. by rewrite <- app_assoc.
      * by apply Forall_app.
    + destruct (existsb is_rejected rs); by eexists _, evs1.
Qed.

(** The requests of a load: each carries the proxy of the configuration
    and the [Accept] header, and the first is for the file asked for. *)
Lemma loadFile_requests config proxy url st :
  (∀ st2, heap_of st2 = heap_of st →
          get_prop config "proxy" st2 = (Normal proxy, st2)) →
  ∃ o reply rest,
    ramlParser_loadFile App url (createReader App config) st
    = (Normal o,
       State (heap_of st)
             (trace st ++
              EvAjax url proxy [("Accept", "application/raml+yaml, */*")]
                reply :: rest)) ∧
    Forall (is_request proxy) rest.
Proof.
  intros Hproxy. unfold ramlParser_loadFile. unfold bind at 1.
  destruct (read_file_requests config proxy url st Hproxy)
    as (r & reply & ->).
  destruct r as [text|reason|]; try by eexists _, _, [].
  destruct (run_loading_requests config proxy (raml_parse App url text)
              (State (heap_of st)
                 (trace st ++
                  [EvAjax url proxy
                     [("Accept", "application/raml+yaml, */*")] reply])))
    as (o & evs & -> & Hall); [done|].
  exists o, reply, evs. split; [|done].
  cbn [heap_of trace]. by rewrite <- app_assoc.
Qed.

(** Handlers of a load that did not succeed leave the store alone. *)
Lemma failed_handlers_keep_heap name config done (o : settled value) st :
  (∀ data, o ≠ Fulfilled data) →
  heap_of (promise_then o (API.createClient_loaded App name config done)
             (λ reason, call done [reason]) st).2 = heap_of st.
Proof.
  intros Hfailed. destruct o as [data|reason|]; cbn [promise_then].
  - by destruct (Hfailed data).
  - unfold settle_quietly. cbn [snd].
    by destruct (call_run done [reason] st) as [r ->].
  - done.
Qed.

(** What follows the prologue of [createClient]. *)
Lemma createClient_rest name url cfg handle proxy st1 :
  (∀ st2, heap_of st2 = heap_of st1 →
          get_prop cfg "proxy" st2 = (Normal proxy, st2)) →
  ∃ st' o load_evs tail,
    (let* loaded := ramlParser_loadFile App url (createReader App cfg) in
     promise_then loaded (API.createClient_loaded App name cfg handle)
       (λ reason, call handle [reason]) ;;;
     ret VUndefined) st1 = (Normal VUndefined, st') ∧
    trace st' = trace st1 ++ load_evs ++ tail ∧
    load_path url o load_evs ∧
    handler_path handle name o tail ∧
    Forall (is_request proxy) load_evs ∧
    (∃ reply rest,
       load_evs = EvAjax url proxy [("Accept", "application/raml+yaml, */*")]
                    reply :: rest) ∧
    ((∀ data, o ≠ Fulfilled data) → heap_of st' = heap_of st1).
Proof.
  intros Hproxy. unfold bind at 1.
  destruct (loadFile_requests cfg proxy url st1 Hproxy)
    as (o' & reply & rest & Hstate & Hall).
  destruct (loadFile_path App cfg url st1) as (o & load_evs & Hrun & Hload).
  rewrite Hrun in Hstate |- *.
  injection Hstate as _ Hevs%app_inv_head. subst load_evs.
  unfold bind at 1.
  pose proof (failed_handlers_keep_heap name cfg handle o
                (State (heap_of st1) (trace st1 ++ EvAjax url proxy
                   [("Accept", "application/raml+yaml, */*")] reply :: rest)))
    as Hheap.
  destruct (loaded_handlers_path App name cfg handle o
              (State (heap_of st1) (trace st1 ++ EvAjax url proxy
                 [("Accept", "application/raml+yaml, */*")] reply :: rest)))
    as (st' & tail & Hhandlers & Htrace & Hpath).
  rewrite Hhandlers in Hheap |- *. cbn [snd heap_of] in Hheap.
  exists st', o,
    (EvAjax url proxy [("Accept", "application/raml+yaml, */*")] reply
     :: rest), tail.
  split; [done|].
  split; [rewrite Htrace; cbn [trace]; by rewrite <- app_assoc|].
  repeat split; eauto.
  constructor; [by eexists _, _ | done].
Qed.

(** The prologue of [createClient]: validation passed, the timeout is
    set, the handle and the configuration are settled. *)
Lemma createClient_prologue (arguments : list value) (name url : string) st :
  arg 0 arguments = VString name →
  arg 1 arguments = VString url →
  let config := arg 2 arguments in
  let done := arg 3 arguments in
  ∃ cfg st1,
    API.createClient App arguments st
    = (let* loaded := ramlParser_loadFile App url (createReader App cfg) in
       promise_then loaded
         (API.createClient_loaded App name cfg
            (completion_handle App config done))
         (λ reason, call (completion_handle App config done) [reason]) ;;;
       ret VUndefined) st1 ∧
    trace st1 = trace st ++ EvTimeout Infinity ::
                  async_events App config done ∧
    (∀ l, is_Some (heap_of st !! l) → heap_of st1 !! l = heap_of st !! l) ∧
    (∀ st2, heap_of st2 = heap_of st1 →
            get_prop cfg "proxy" st2
            = (Normal (request_proxy (heap_of st) config), st2)).
Proof.
  intros Hname Hurl. cbv zeta. unfold API.createClient.
  rewrite Hname, Hurl. unfold completion_handle, async_events.
  generalize (arg 2 arguments) (arg 3 arguments). intros config done.
  assert (Hfresh : ∀ l, is_Some (heap_of st !! l) →
    <[fresh (dom (heap_of st)) := ∅]> (heap_of st) !! l = heap_of st !! l).
  { intros l Hl. apply lookup_insert_ne. intros <-.
    apply elem_of_dom in Hl. by apply is_fresh in Hl. }
  assert (Hempty : ∀ st2,
    heap_of st2 = <[fresh (dom (heap_of st)) := ∅]> (heap_of st) →
    get_prop (VObject (fresh (dom (heap_of st)))) "proxy" st2
    = (Normal VUndefined, st2)).
  { intros st2 Hst2. run_M.
    by rewrite Hst2, lookup_total_insert_eq, lookup_empty. }
  destruct (is_function config) eqn:Hfn.
  - (* the configuration was skipped *)
    assert (Htruthy : truthy config = true) by by destruct config.
    assert (Hproxy : request_proxy (heap_of st) config = VUndefined)
      by by destruct config.
    exists (VObject (fresh (dom (heap_of st)))),
      (State (<[fresh (dom (heap_of st)) := ∅]> (heap_of st))
             (trace st ++ [EvTimeout Infinity])).
    split; [|split; [done|split; [done|]]].
    + cbv [bind ret new_object get_heap put_heap executeContext_timeout emit
           fst snd heap_of trace].
      rewrite Htruthy. reflexivity.
    + rewrite Hproxy. cbn [heap_of]. apply Hempty.
  - destruct (truthy config) eqn:Hconfig.
    + (* a configuration was passed *)
      assert (Hproxy : ∀ st2, heap_of st2 = heap_of st →
        get_prop config "proxy" st2
        = (Normal (request_proxy (heap_of st) config), st2)).
      { intros st2 Hst2.
        destruct config; try discriminate; run_M; rewrite ?Hst2; try done.
        unfold inherited. by repeat case_match. }
      destruct (truthy done) eqn:Hdone.
      * exists config, (State (heap_of st) (trace st ++ [EvTimeout Infinity])).
        split; [|split; [done|split; [done|done]]].
        cbv [bind ret executeContext_timeout emit fst snd heap_of trace].
        rewrite Hdone, Hconfig. reflexivity.
      * exists config,
          (State (heap_of st)
             ((trace st ++ [EvTimeout Infinity]) ++
              [EvAsync (VFunction (executeContext_async App))])).
        split; [|split; [|split; [done|done]]].
        -- cbv [bind ret executeContext_timeout executeContext_async_call
                emit fst snd heap_of trace].
           rewrite Hdone, Hconfig. reflexivity.
        -- cbn [trace orb]. by rewrite <- app_assoc.
    + (* no usable configuration: a fresh one *)
      assert (Hproxy : request_proxy (heap_of st) config = VUndefined)
        by by destruct config.
      destruct (truthy done) eqn:Hdone.
      * exists (VObject (fresh (dom (heap_of st)))),
          (State (<[fresh (dom (heap_of st)) := ∅]> (heap_of st))
                 (trace st ++ [EvTimeout Infinity])).
        split; [|split; [done|split; [done|]]].
        -- cbv [bind ret new_object get_heap put_heap executeContext_timeout
                emit fst snd heap_of trace].
           rewrite Hdone, Hconfig. reflexivity.
        -- rewrite Hproxy. cbn [heap_of]. apply Hempty.
      * exists (VObject (fresh (dom (heap_of st)))),
          (State (<[fresh (dom (heap_of st)) := ∅]> (heap_of st))
             ((trace st ++ [EvTimeout Infinity]) ++
              [EvAsync (VFunction (executeContext_async App))])).
        split; [|split; [|split; [done|]]].
        -- cbv [bind ret new_object get_heap put_heap executeContext_timeout
                executeContext_async_call emit fst snd heap_of trace].
           rewrite Hdone, Hconfig. reflexivity.
        -- cbn [trace orb]. by rewrite <- app_assoc.
        -- rewrite Hproxy. cbn [heap_of]. apply Hempty.
Qed.

(** A run of [createClient] on a string name and a string URL, with all
    that is known about it. *)
Lemma createClient_facts (arguments : list value) (name url : string) st evs :
  arg 0 arguments = VString name →
  arg 1 arguments = VString url →
  trace (API.createClient App arguments st).2 = trace st ++ evs →
  let config := arg 2 arguments in
  let done := arg 3 arguments in
  let proxy := request_proxy (heap_of st) config in
  ∃ o load_evs tail,
    (API.createClient App arguments st).1 = Normal VUndefined ∧
    evs = EvTimeout Infinity :: async_events App config done ++
            load_evs ++ tail ∧
    load_path url o load_evs ∧
    handler_path (completion_handle App config done) name o tail ∧
    Forall (is_request proxy) load_evs ∧
    (∃ reply rest,
       load_evs = EvAjax url proxy [("Accept", "application/raml+yaml, */*")]
                    reply :: rest) ∧
    ((∀ data, o ≠ Fulfilled data) →
     ∀ l, is_Some (heap_of st !! l) →
          heap_of (API.createClient App arguments st).2 !! l
          = heap_of st !! l).
Proof.
  intros Hname Hurl Hevs config done proxy.
  destruct (createClient_prologue arguments name url st Hname Hurl)
    as (cfg & st1 & Hrun & Hst1 & Hframe & Hproxy).
  fold config done proxy in Hrun, Hst1, Hproxy.
  destruct (createClient_rest name url cfg
              (completion_handle App config done) proxy st1 Hproxy)
    as (st' & o & load_evs & tail & Heq & Htrace & Hload & Hpath & Hall &
        Hfirst & Hheap).
  rewrite Hrun, Heq in Hevs |- *. cbn [fst snd] in *.
  rewrite Htrace, Hst1, <- app_assoc in Hevs.
  apply app_inv_head in Hevs. subst evs.
  exists o, load_evs, tail. repeat (split; [done|]).
  intros Hfailed l Hl. rewrite (Hheap Hfailed). by apply Hframe.
Qed.

End CreateClientFacts.

Lemma handler_path_events handle name o tail e :
  handler_path handle name o tail → e ∈ tail → is_handler_event e = true.
Proof.
  destruct 1; unfold calls; destruct (is_function handle); intros Hin;
    repeat (apply elem_of_cons in Hin as [-> | Hin]; [done|]);
    by apply not_elem_of_nil in Hin.
Qed.

(** Where the events of a run sit: requests in the load, the rest of what
    happens after the prologue in the handlers. *)
Lemma run_event_places App config done url o load_evs handle name tail e :
  load_path url o load_evs →
  handler_path handle name o tail →
  e ∈ EvTimeout Infinity :: async_events App config done ++ load_evs ++ tail →
  (is_ajax e = true → e ∈ load_evs) ∧
  (is_handler_event e = true → e ∈ tail).
Proof.
  intros Hload Hpath Hin.
  apply elem_of_cons in Hin as [-> | Hin]; [done|].
  apply elem_of_app in Hin as [Hin | Hin].
  { unfold async_events in Hin.
    destruct (is_function config || truthy done).
    - by apply not_elem_of_nil in Hin.
    - by apply list_elem_of_singleton in Hin as ->. }
  apply elem_of_app in Hin as [Hin | Hin].
  - split; [done|]. intros He.
    apply (load_path_ajax _ _ _ _ Hload) in Hin. by destruct e.
  - split; [|done]. intros He.
    apply (handler_path_not_ajax _ _ _ _ _ Hpath) in Hin. congruence.
Qed.

(** A run whose load did not succeed: no generator, no install, and the
    calls are those of the rejection handler. *)
Lemma failed_run_events App config done url o load_evs handle name tail :
  load_path url o load_evs →
  handler_path handle name o tail →
  (∀ data, o ≠ Fulfilled data) →
  let evs := EvTimeout Infinity :: async_events App config done ++
               load_evs ++ tail in
  filter is_call evs
    = match o with Rejected reason => calls handle [reason] | _ => [] end ∧
  (∀ path client r, EvInstall path client r ∉ evs) ∧
  (∀ data cfg r, EvGenerate data cfg r ∉ evs).
Proof.
  intros Hload Hpath Hfailed evs.
  assert (Htail : tail = match o with
                         | Rejected reason => calls handle [reason]
                         | _ => []
                         end).
  { inversion Hpath; subst; try done; by edestruct Hfailed. }
  assert (Hnone : ∀ e, e ∈ evs → is_handler_event e = true →
                       is_call e = true).
  { intros e Hin He.
    apply (run_event_places _ _ _ _ _ _ _ _ _ _ Hload Hpath) in Hin
      as [_ Hin].
    specialize (Hin He). rewrite Htail in Hin. unfold calls in Hin.
    destruct o; try (by apply not_elem_of_nil in Hin).
    destruct (is_function handle); [|by apply not_elem_of_nil in Hin].
    by apply list_elem_of_singleton in Hin as ->. }
  split; [|split].
  - unfold evs. rewrite (filter_is_call_run _ _ _ _ _ _ _ Hload), Htail.
    unfold calls. destruct o; try done. by destruct (is_function handle).
  - intros path client r Hin. by apply Hnone in Hin.
  - intros data cfg r Hin. by apply Hnone in Hin.
Qed.

(** When the client has been generated and installed, the install path is
    the alias split at its dots, the installed client is the generated
    one, nothing else is installed, and the completion handle is called
    once with [null] and the message that names the alias. *)
Theorem createClient_installs (App : host) (arguments : list value)
    (name url : string) (st : state) (evs : list event)
    (path : list string) (client : value) :
  let handle := completion_handle App (arg 2 arguments) (arg 3 arguments) in
  arg 0 arguments = VString name →
  arg 1 arguments = VString url →
  is_function handle = true →
  trace (API.createClient App arguments st).2 = trace st ++ evs →
  EvInstall path client (Normal tt) ∈ evs →
  path = split_dots name ∧
  (∃ data config, EvGenerate data config (Normal client) ∈ evs) ∧
  filter is_install evs = [EvInstall path client (Normal tt)] ∧
  filter is_call evs =
    [EvCall handle
       [VNull;
        VString ("Create a new code cell and type '" +:+ name +:+
                 ".' to explore this API.")]].
Proof.
  intros handle Hname Hurl Hhandle Hevs Hin. subst handle.
  destruct (createClient_run_parts App arguments name url st evs
              Hname Hurl Hevs)
    as (o & load_evs & tail & -> & Hcalls & Hload & Hpath).
  pose proof (run_event_places _ _ _ _ _ _ _ _ _ _ Hload Hpath Hin)
    as [_ Htail]. specialize (Htail eq_refl).
  assert (Hplain : ∀ e,
    e ∈ EvTimeout Infinity ::
          async_events App (arg 2 arguments) (arg 3 arguments) ++ load_evs →
    is_install e = false).
  { intros e [-> | He]%elem_of_cons; [done|].
    apply elem_of_app in He as [He|He].
    - by apply async_events_plain in He as (_ & _ & ? & _).
    - apply (load_path_ajax _ _ _ _ Hload) in He. by destruct e. }
  rewrite Hcalls. clear Hcalls Hin.
  rewrite app_assoc, app_comm_cons, filter_app.
  rewrite (filter_none is_install _ Hplain). cbn [app].
  inversion Hpath; subst; unfold calls in *; rewrite ?Hhandle in *;
    repeat (apply elem_of_cons in Htail as [Heq | Htail];
            [try discriminate|]);
    try (by apply not_elem_of_nil in Htail).
  simplify_eq. split; [done|]. split; [|done].
  eexists _, _. right. apply elem_of_app. right. left.
Qed.

Lemma createClient_installs_witness :
  let arguments :=
    [VString "a.b"; VString "http://api/x.raml"; VUndefined; sample_done] in
  let xhr := AjaxReply VNull 200 "#%RAML 0.8" in
  let evs :=
    [EvTimeout Infinity;
     EvAjax "http://api/x.raml" VUndefined accept_header (Some xhr);
     EvGenerate (VString "#%RAML 0.8") (VObject 4) (Normal (VFunction 60));
     EvInstall ["a"; "b"] (VFunction 60) (Normal tt);
     EvCall sample_done
       [VNull;
        VString "Create a new code cell and type 'a.b.' to explore this API."]]
  in
  trace (API.createClient (sample_host 200 false) arguments sample_state).2
    = trace sample_state ++ evs ∧
  ["a"; "b"] = split_dots "a.b" ∧
  (∃ data config, EvGenerate data config (Normal (VFunction 60)) ∈ evs) ∧
  filter is_install evs = [EvInstall ["a"; "b"] (VFunction 60) (Normal tt)] ∧
  filter is_call evs =
    [EvCall sample_done
       [VNull;
        VString "Create a new code cell and type 'a.b.' to explore this API."]].
Proof.
  intros arguments xhr evs. split; [reflexivity|].
  refine (createClient_installs (sample_host 200 false) arguments
            "a.b" "http://api/x.raml" sample_state evs
            ["a"; "b"] (VFunction 60) eq_refl eq_refl eq_refl eq_refl _).
  right. right. right. left.
Defined.

(** When [fromPath] throws [e] while installing the generated client, the
    completion handle is called once, with [e]. *)
Theorem createClient_install_error (App : host) (arguments : list value)
    (name url : string) (st : state) (evs : list event)
    (path : list string) (client e : value) :
  let handle := completion_handle App (arg 2 arguments) (arg 3 arguments) in
  arg 0 arguments = VString name →
  arg 1 arguments = VString url →
  is_function handle = true →
  trace (API.createClient App arguments st).2 = trace st ++ evs →
  EvInstall path client (Throw e) ∈ evs →
  filter is_call evs = [EvCall handle [e]].
Proof.
  intros handle Hname Hurl Hhandle Hevs Hin. subst handle.
  destruct (createClient_run_parts App arguments name url st evs
              Hname Hurl Hevs)
    as (o & load_evs & tail & -> & Hcalls & Hload & Hpath).
  pose proof (run_event_places _ _ _ _ _ _ _ _ _ _ Hload Hpath Hin)
    as [_ Htail]. specialize (Htail eq_refl).
  rewrite Hcalls. clear Hcalls Hin.
  inversion Hpath; subst; unfold calls in *; rewrite ?Hhandle in *;
    repeat (apply elem_of_cons in Htail as [Heq | Htail];
            [try discriminate|]);
    try (by apply not_elem_of_nil in Htail).
  by simplify_eq.
Qed.

Lemma createClient_install_error_witness :
  let App := {|
    executeContext_async := 100;
    executeWindow := VObject 50;
    middleware_ajax := λ _ _, Some (AjaxReply VNull 200 "#%RAML 0.8");
    raml_parse := λ _ text, Parsed (VString text);
    clientGenerator := λ _ _ h, (Normal (VFunction 60), h);
    fromPath := λ _ _ _ h, (Throw (VError "x is taken"), h);
    authenticate := λ _ _ _ _ h, (h, [], Normal VUndefined)
  |} in
  let arguments :=
    [VString "x"; VString "http://api/x.raml"; VUndefined; sample_done] in
  let evs :=
    [EvTimeout Infinity;
     EvAjax "http://api/x.raml" VUndefined accept_header
       (Some (AjaxReply VNull 200 "#%RAML 0.8"));
     EvGenerate (VString "#%RAML 0.8") (VObject 4) (Normal (VFunction 60));
     EvInstall ["x"] (VFunction 60) (Throw (VError "x is taken"));
     EvCall sample_done [VError "x is taken"]] in
  trace (API.createClient App arguments sample_state).2
    = trace sample_state ++ evs ∧
  filter is_call evs = [EvCall sample_done [VError "x is taken"]].
Proof.
  intros App arguments evs. split; [reflexivity|].
  refine (createClient_install_error App arguments
            "x" "http://api/x.raml" sample_state evs
            ["x"] (VFunction 60) (VError "x is taken")
            eq_refl eq_refl eq_refl eq_refl _).
  right. right. right. left.
Defined.

(** When the middleware reports an error for the read of the main file,
    which is the first request of the run, that error itself is what the
    completion handle receives: no other request is made, the handle is
    called once with the error, the client generator is not run and
    nothing is installed. *)
Theorem createClient_transport_error (App : host) (arguments : list value)
    (name url : string) (st : state) (evs : list event)
    (read_url : string) (proxy : value) (headers : list (string * string))
    (xhr : ajax_reply) (later : list event) :
  let handle := completion_handle App (arg 2 arguments) (arg 3 arguments) in
  arg 0 arguments = VString name →
  arg 1 arguments = VString url →
  is_function handle = true →
  trace (API.createClient App arguments st).2 = trace st ++ evs →
  filter is_ajax evs = EvAjax read_url proxy headers (Some xhr) :: later →
  truthy (reply_err xhr) = true →
  read_url = url ∧ later = [] ∧
  filter is_call evs = [EvCall handle [reply_err xhr]] ∧
  (∀ path client r, EvInstall path client r ∉ evs) ∧
  (∀ data config r, EvGenerate data config r ∉ evs).
Proof.
  intros handle Hname Hurl Hhandle Hevs Hfirst Herr. subst handle.
  destruct (createClient_run_parts App arguments name url st evs
              Hname Hurl Hevs)
    as (o & load_evs & tail & -> & _ & Hload & Hpath).
  rewrite (filter_is_ajax_run _ _ _ _ _ _ _ _ _ Hload Hpath) in Hfirst.
  destruct (load_path_first _ _ _ _ _ _ _ _ Hload Hfirst) as [-> Hmain].
  rewrite Herr in Hmain. destruct Hmain as [-> ->].
  split; [done|]. split; [done|].
  destruct (failed_run_events App (arg 2 arguments) (arg 3 arguments)
              _ _ _ _ _ _ Hload Hpath) as (Hcalls & Hinstall & Hgenerate);
    [done|].
  split; [|done]. rewrite Hcalls. unfold calls. by rewrite Hhandle.
Qed.

Lemma createClient_transport_error_witness :
  let App := {|
    executeContext_async := 100;
    executeWindow := VObject 50;
    middleware_ajax := λ _ _, Some (AjaxReply (VError "offline") 0 "");
    raml_parse := λ _ text, Parsed (VString text);
    clientGenerator := λ _ _ h, (Normal (VFunction 60), h);
    fromPath := λ _ _ _ h, (Normal tt, h);
    authenticate := λ _ _ _ _ h, (h, [], Normal VUndefined)
  |} in
  let arguments :=
    [VString "x"; VString "http://api/x.raml"; VUndefined; sample_done] in
  let xhr := AjaxReply (VError "offline") 0 "" in
  let evs :=
    [EvTimeout Infinity;
     EvAjax "http://api/x.raml" VUndefined accept_header (Some xhr);
     EvCall sample_done [VError "offline"]] in
  trace (API.createClient App arguments sample_state).2
    = trace sample_state ++ evs ∧
  filter is_call evs = [EvCall sample_done [VError "offline"]] ∧
  (∀ path client r, EvInstall path client r ∉ evs) ∧
  (∀ data config r, EvGenerate data config r ∉ evs).
Proof.
  intros App arguments xhr evs. split; [reflexivity|].
  exact (proj2 (proj2
    (createClient_transport_error App arguments
       "x" "http://api/x.raml" sample_state evs
       "http://api/x.raml" VUndefined accept_header xhr []
       eq_refl eq_refl eq_refl eq_refl eq_refl eq_refl))).
Defined.

(** When the read of the main file, the first request of the run, is
    never answered, the completion handle is never called: the run ends
    with that request, with no client generated or installed. *)
Theorem createClient_unanswered (App : host) (arguments : list value)
    (name url : string) (st : state) (evs : list event)
    (read_url : string) (proxy : value) (headers : list (string * string))
    (later : list event) :
  arg 0 arguments = VString name →
  arg 1 arguments = VString url →
  trace (API.createClient App arguments st).2 = trace st ++ evs →
  filter is_ajax evs = EvAjax read_url proxy headers None :: later →
  read_url = url ∧ later = [] ∧
  filter is_call evs = [] ∧
  (∀ path client r, EvInstall path client r ∉ evs) ∧
  (∀ data config r, EvGenerate data config r ∉ evs).
Proof.
  intros Hname Hurl Hevs Hfirst.
  destruct (createClient_run_parts App arguments name url st evs
              Hname Hurl Hevs)
    as (o & load_evs & tail & -> & _ & Hload & Hpath).
  rewrite (filter_is_ajax_run _ _ _ _ _ _ _ _ _ Hload Hpath) in Hfirst.
  destruct (load_path_first _ _ _ _ _ _ _ _ Hload Hfirst) as [-> [-> ->]].
  split; [done|]. split; [done|].
  by destruct (failed_run_events App (arg 2 arguments) (arg 3 arguments)
                 _ _ _ _ _ _ Hload Hpath) as (Hcalls & Hinstall & Hgenerate).
Qed.

Lemma createClient_unanswered_witness :
  let App := {|
    executeContext_async := 100;
    executeWindow := VObject 50;
    middleware_ajax := λ _ _, None;
    raml_parse := λ _ text, Parsed (VString text);
    clientGenerator := λ _ _ h, (Normal (VFunction 60), h);
    fromPath := λ _ _ _ h, (Normal tt, h);
    authenticate := λ _ _ _ _ h, (h, [], Normal VUndefined)
  |} in
  let arguments :=
    [VString "x"; VString "http://api/x.raml"; VUndefined; sample_done] in
  let evs :=
    [EvTimeout Infinity;
     EvAjax "http://api/x.raml" VUndefined accept_header None] in
  trace (API.createClient App arguments sample_state).2
    = trace sample_state ++ evs ∧
  filter is_call evs = [] ∧
  (∀ path client r, EvInstall path client r ∉ evs) ∧
  (∀ data config r, EvGenerate data config r ∉ evs).
Proof.
  intros App arguments evs. split; [reflexivity|].
  exact (proj2 (proj2
    (createClient_unanswered App arguments
       "x" "http://api/x.raml" sample_state evs
       "http://api/x.raml" VUndefined accept_header []
       eq_refl eq_refl eq_refl eq_refl))).
Defined.

(** How [createClient] ends. *)
Lemma createClient_outcome (App : host) (arguments : list value)
    (st : state) :
  if _isString (arg 0 arguments) && _isString (arg 1 arguments)
  then (API.createClient App arguments st).1 = Normal VUndefined
  else ∃ message,
         API.createClient App arguments st = (Throw (VError message), st).
Proof.
  destruct (arg 0 arguments) as [| | | |name| | | |] eqn:Hname;
    try (unfold API.createClient; rewrite Hname; by eexists).
  destruct (arg 1 arguments) as [| | | |url| | | |] eqn:Hurl;
    try (unfold API.createClient; rewrite Hname, Hurl; by eexists).
  destruct (createClient_paths App arguments name url st Hname Hurl)
    as (st' & _ & _ & _ & -> & _).
  done.
Qed.

(** [createClient] throws exactly when the name or the URL is not a
    string, and then leaves the state as it is.  Otherwise it returns
    [undefined], whatever network, parser, generator, installer and
    callback do: their failures never reach the caller. *)
Theorem createClient_throws_only_on_validation (App : host)
    (arguments : list value) (st : state) :
  if _isString (arg 0 arguments) && _isString (arg 1 arguments)
  then (API.createClient App arguments st).1 = Normal VUndefined
  else ∃ message,
         API.createClient App arguments st = (Throw (VError message), st).
Proof. apply createClient_outcome. Qed.

(** On every run, whatever the arguments and the collaborators, the
    facade calls a callback at most once. *)
Theorem createClient_calls_back_at_most_once (App : host)
    (arguments : list value) (st : state) :
  ∃ evs,
    trace (API.createClient App arguments st).2 = trace st ++ evs ∧
    (length (filter is_call evs) ≤ 1)%nat.
Proof.
  pose proof (createClient_outcome App arguments st) as Hvalid.
  revert Hvalid.
  destruct (arg 0 arguments) as [| | | |name| | | |] eqn:Hname; intros Hvalid;
    cbn [_isString andb] in Hvalid;
    try (lazymatch type of Hvalid with
         | ex _ => destruct Hvalid as [msg Hthrow]
         end; rewrite Hthrow; exists [];
         split; [by rewrite app_nil_r | cbn; lia]).
  revert Hvalid.
  destruct (arg 1 arguments) as [| | | |url| | | |] eqn:Hurl; intros Hvalid;
    cbn [_isString andb] in Hvalid;
    try (lazymatch type of Hvalid with
         | ex _ => destruct Hvalid as [msg Hthrow]
         end; rewrite Hthrow; exists [];
         split; [by rewrite app_nil_r | cbn; lia]).
  destruct (createClient_paths App arguments name url st Hname Hurl)
    as (st' & o & load_evs & tail & -> & Htrace & Hload & Hpath).
  eexists. split; [exact Htrace|].
  rewrite (filter_is_call_run _ _ _ _ _ _ _ Hload).
  destruct Hpath; unfold calls;
    destruct (is_function (completion_handle App (arg 2 arguments)
                             (arg 3 arguments)));
    rewrite ?filter_cons, ?filter_nil; cbn; repeat case_decide; cbn; lia.
Qed.

(** The configuration can be skipped: [createClient(name, url, done)] with
    a function in third place runs exactly as
    [createClient(name, url, undefined, done)], and a fourth argument is
    then ignored. *)
Theorem createClient_config_skipped (App : host) (name url : value)
    (f : positive) (extra : value) (st : state) :
  API.createClient App [name; url; VFunction f] st
  = API.createClient App [name; url; VUndefined; VFunction f] st ∧
  API.createClient App [name; url; VFunction f; extra] st
  = API.createClient App [name; url; VUndefined; VFunction f] st.
Proof.
  unfold API.createClient, arg. cbn [nth].
  by destruct name.
Qed.

(** The requests of a run all carry the proxy of the configuration that
    was passed ([undefined] if none was) and the header [Accept:
    application/raml+yaml, */*]; there is at least one, and the first is
    for the URL given to [createClient]. *)
Theorem createClient_requests (App : host) (arguments : list value)
    (name url : string) (st : state) (evs : list event) :
  arg 0 arguments = VString name →
  arg 1 arguments = VString url →
  trace (API.createClient App arguments st).2 = trace st ++ evs →
  let proxy := request_proxy (heap_of st) (arg 2 arguments) in
  (∀ e, e ∈ evs → is_ajax e = true → is_request proxy e) ∧
  ∃ reply rest,
    filter is_ajax evs
    = EvAjax url proxy [("Accept", "application/raml+yaml, */*")] reply
      :: rest.
Proof.
  intros Hname Hurl Hevs proxy.
  destruct (createClient_facts App arguments name url st evs Hname Hurl Hevs)
    as (o & load_evs & tail & _ & -> & Hload & Hpath & Hall & Hfirst & _).
  fold proxy in Hall, Hfirst. split.
  - intros e Hin He.
    apply (run_event_places _ _ _ _ _ _ _ _ _ _ Hload Hpath) in Hin
      as [Hin _].
    rewrite Forall_forall in Hall. by apply Hall, Hin.
  - destruct Hfirst as (reply & rest & Hfirst). exists reply, rest.
    rewrite <- Hfirst. by eapply filter_is_ajax_run.
Qed.

Lemma createClient_requests_witness :
  let h := <[4%positive := {[ "proxy" := VString "http://proxy" ]}]>
             sample_heap in
  let arguments :=
    [VString "x"; VString "http://api/x.raml"; VObject 4; sample_done] in
  let request :=
    EvAjax "http://api/x.raml" (VString "http://proxy") accept_header
      (Some (AjaxReply VNull 404 "#%RAML 0.8")) in
  let evs :=
    [EvTimeout Infinity; request;
     EvCall sample_done
       [VError "Received status code 404 loading http://api/x.raml"]] in
  trace (API.createClient (sample_host 404 false) arguments (State h [])).2
    = evs ∧
  ∃ reply rest,
    filter is_ajax evs
    = EvAjax "http://api/x.raml" (VString "http://proxy") accept_header reply
      :: rest.
Proof.
  intros h arguments request evs. split; [reflexivity|].
  exact (proj2 (createClient_requests (sample_host 404 false) arguments
                  "x" "http://api/x.raml" (State h []) evs
                  eq_refl eq_refl eq_refl)).
Defined.

(** A run in which the client generator is not reached (the load failed
    or a request was never answered) changes no object of the store. *)
Theorem createClient_failed_load_keeps_store (App : host)
    (arguments : list value) (name url : string) (st : state)
    (evs : list event) :
  arg 0 arguments = VString name →
  arg 1 arguments = VString url →
  trace (API.createClient App arguments st).2 = trace st ++ evs →
  (∀ data config r, EvGenerate data config r ∉ evs) →
  ∀ l, is_Some (heap_of st !! l) →
       heap_of (API.createClient App arguments st).2 !! l = heap_of st !! l.
Proof.
  intros Hname Hurl Hevs Hnone.
  destruct (createClient_facts App arguments name url st evs Hname Hurl Hevs)
    as (o & load_evs & tail & _ & -> & Hload & Hpath & _ & _ & Hheap).
  apply Hheap. intros data ->.
  inversion Hpath; subst;
    (eapply Hnone; right; apply elem_of_app; right;
     apply elem_of_app; right; left).
Qed.

Lemma createClient_failed_load_keeps_store_witness :
  let arguments :=
    [VString "x"; VString "http://api/x.raml"; VUndefined; sample_done] in
  is_Some (sample_heap !! 2%positive) ∧
  heap_of (API.createClient (sample_host 404 false) arguments
             sample_state).2 !! 2%positive
  = sample_heap !! 2%positive.
Proof.
  intros arguments. split; [by eexists|].
  refine (createClient_failed_load_keeps_store (sample_host 404 false)
            arguments "x" "http://api/x.raml" sample_state
            [EvTimeout Infinity;
             EvAjax "http://api/x.raml" VUndefined accept_header
               (Some (AjaxReply VNull 404 "#%RAML 0.8"));
             EvCall sample_done
               [VError "Received status code 404 loading http://api/x.raml"]]
            eq_refl eq_refl eq_refl _ 2%positive _).
  - intros data config r Hin.
    repeat (apply elem_of_cons in Hin as [Hin|Hin]; [discriminate|]).
    by apply not_elem_of_nil in Hin.
  - by eexists.
Defined.

Lemma sorted_constant (c : nat) (l : list nat) :
  (∀ p, p ∈ l → p = c) → StronglySorted le l.
Proof.
  induction l as [|p l IH]; intros Hall; constructor.
  - apply IH. intros q Hq. apply Hall. by right.
  - apply Forall_forall. intros q Hq.
    rewrite (Hall p) by left. rewrite (Hall q) by (by right). done.
Qed.

(** A list that starts with a timeout, goes on with events of phase 1,
    and ends with a sorted list of later phases, is sorted. *)
Lemma phases_sorted d (async rest : list event) :
  (∀ e, e ∈ async → phase e = 1%nat) →
  (∀ e, e ∈ rest → (3 ≤ phase e)%nat) →
  StronglySorted le (phase <$> rest) →
  StronglySorted le (phase <$> EvTimeout d :: async ++ rest).
Proof.
  intros Hasync Hlate Hsorted.
  assert (H1 : ∀ p, p ∈ phase <$> async → p = 1%nat)
    by (intros p [e [-> He]]%list_elem_of_fmap; auto).
  assert (H3 : ∀ p, p ∈ phase <$> rest → (3 ≤ p)%nat)
    by (intros p [e [-> He]]%list_elem_of_fmap; auto).
  rewrite fmap_cons, !fmap_app. constructor.
  - apply StronglySorted_app_2; [|by apply (sorted_constant 1)|done].
    intros p q Hp%H1 Hq%H3. lia.
  - apply Forall_forall. intros p Hp. cbn. lia.
Qed.

(** The order of a run, as far as index.js fixes it.  The timeout is set
    first, then the handle is taken from the sandbox if none was passed,
    and only then come the requests and the handlers.  Leaving the
    requests aside, the events come in this order: timeout, handle, client
    generator, install, callback.  Nothing is said of where the requests
    fall among generator, install and callback, which is the parser's. *)
Theorem createClient_order (App : host) (arguments : list value)
    (name url : string) (st : state) (evs : list event) :
  arg 0 arguments = VString name →
  arg 1 arguments = VString url →
  trace (API.createClient App arguments st).2 = trace st ++ evs →
  (∃ rest,
     evs = EvTimeout Infinity ::
             async_events App (arg 2 arguments) (arg 3 arguments) ++ rest ∧
     ∀ e, e ∈ rest → (2 ≤ phase e)%nat) ∧
  StronglySorted le (phase <$> filter (λ e, negb (is_ajax e)) evs).
Proof.
  intros Hname Hurl Hevs.
  destruct (createClient_run_parts App arguments name url st evs
              Hname Hurl Hevs)
    as (o & load_evs & tail & -> & _ & Hload & Hpath).
  assert (Hasync : ∀ e,
    e ∈ async_events App (arg 2 arguments) (arg 3 arguments) →
    phase e = 1%nat ∧ is_ajax e = false).
  { intros e He. unfold async_events in He.
    destruct (is_function _ || truthy _).
    - by apply not_elem_of_nil in He.
    - by apply list_elem_of_singleton in He as ->. }
  assert (Hrequests : ∀ e, e ∈ load_evs →
    phase e = 2%nat ∧ is_ajax e = true).
  { intros e He. apply (load_path_ajax _ _ _ _ Hload) in He. by destruct e. }
  assert (Htail : StronglySorted le (phase <$> tail) ∧
                  ∀ e, e ∈ tail → (3 ≤ phase e)%nat ∧ is_ajax e = false).
  { destruct Hpath; unfold calls;
      destruct (is_function (completion_handle App (arg 2 arguments)
                               (arg 3 arguments))); cbn;
      (split; [repeat constructor; lia|]);
      intros ev He;
      repeat (apply elem_of_cons in He as [-> | He];
              [cbn; split; [lia|done]|]);
      by apply not_elem_of_nil in He. }
  destruct Htail as [Hsorted Hlate]. split.
  - exists (load_evs ++ tail). split; [done|].
    intros e [[-> _]%Hrequests | [He _]%Hlate]%elem_of_app; lia.
  - rewrite filter_cons_True by done. rewrite !filter_app.
    rewrite (filter_all _ (async_events _ _ _))
      by (intros e (_ & ->)%Hasync; done).
    rewrite (filter_none _ load_evs) by (intros e (_ & ->)%Hrequests; done).
    rewrite (filter_all _ tail) by (intros e [_ ->]%Hlate; done).
    apply phases_sorted.
    + intros e He. by apply Hasync.
    + intros e He. by apply Hlate.
    + done.
Qed.

Lemma createClient_order_witness :
  let arguments := [VString "x"; VString "http://api/x.raml"] in
  let evs :=
    [EvTimeout Infinity; EvAsync (VFunction 100);
     EvAjax "http://api/x.raml" VUndefined accept_header
       (Some (AjaxReply VNull 200 "#%RAML 0.8"));
     EvGenerate (VString "#%RAML 0.8") (VObject 4) (Normal (VFunction 60));
     EvInstall ["x"] (VFunction 60) (Normal tt);
     EvCall (VFunction 100)
       [VNull;
        VString "Create a new code cell and type 'x.' to explore this API."]]
  in
  trace (API.createClient (sample_host 200 false) arguments sample_state).2
    = trace sample_state ++ evs ∧
  StronglySorted le (phase <$> filter (λ e, negb (is_ajax e)) evs).
Proof.
  intros arguments evs. split; [reflexivity|].
  exact (proj2 (createClient_order (sample_host 200 false) arguments
                  "x" "http://api/x.raml" sample_state evs
                  eq_refl eq_refl eq_refl)).
Defined.

(** ** The install path *)

Lemma split_dots_nonempty s : split_dots s ≠ [].
Proof.
  destruct s as [|c rest]; [done|]. cbn.
  destruct (Ascii.eqb c "."); [done|]. by destruct (split_dots rest).
Qed.

(** The path under which a client is installed is the alias cut at its
    dots: joined with dots it gives the alias back, no segment has a dot
    in it, and an alias without dots is a path of one segment. *)
Theorem split_dots_path (name : string) :
  join_dots (split_dots name) = name ∧
  Forall (λ piece, has_dot piece = false) (split_dots name) ∧
  (has_dot name = false → split_dots name = [name]).
Proof.
  induction name as [|c rest (Hjoin & Hpieces & Hsingle)].
  - repeat split; repeat constructor.
  - cbn [split_dots has_dot].
    destruct (Ascii.eqb c ".") eqn:Hc.
    + apply Ascii.eqb_eq in Hc as ->. split; [|split].
      * pose proof (split_dots_nonempty rest).
        rewrite <- Hjoin at 2. by destruct (split_dots rest).
      * by constructor.
      * done.
    + pose proof (split_dots_nonempty rest) as Hne.
      destruct (split_dots rest) as [|piece pieces]; [done|].
      split; [|split].
      * rewrite <- Hjoin. by destruct pieces.
      * apply Forall_cons in Hpieces as [Hpiece Hpieces].
        constructor; [|done]. cbn. by rewrite Hc.
      * cbn. intros Hrest. specialize (Hsingle Hrest). by simplify_eq.
Qed.

(** ** The reader *)

Lemma status_2xx (status : Z) :
  status `div` 100 = 2 ↔ 200 ≤ status ≤ 299.
Proof.
  pose proof (Z.div_mod status 100 ltac:(lia)).
  pose proof (Z.mod_pos_bound status 100 ltac:(lia)).
  lia.
Qed.

(** One call of the reader makes one request, for the URL it is given,
    with the proxy of the configuration and the [Accept] header, and
    touches no object.  Its promise is fulfilled exactly when the request
    is answered without an error and with a status from 200 to 299, and
    then with the response text. *)
Theorem createReader_one_request (App : host) (config : value)
    (url : string) (proxy : value) (st : state) :
  get_prop config "proxy" st = (Normal proxy, st) →
  let reply := middleware_ajax App url proxy in
  (createReader App config url st).2
  = State (heap_of st)
      (trace st ++
       [EvAjax url proxy [("Accept", "application/raml+yaml, */*")] reply]) ∧
  ∀ text,
    (createReader App config url st).1 = Normal (Fulfilled text) ↔
    ∃ xhr, reply = Some xhr ∧ truthy (reply_err xhr) = false ∧
           200 ≤ xhr_status xhr ≤ 299 ∧ xhr_responseText xhr = text.
Proof.
  intros Hproxy reply.
  assert (Hrun : createReader App config url st
    = (Normal
         match reply with
         | None => Pending
         | Some xhr =>
             if truthy (reply_err xhr) then Rejected (reply_err xhr)
             else if negb (xhr_status xhr `div` 100 =? 2) then
               Rejected (VError (status_message (xhr_status xhr) url))
             else Fulfilled (xhr_responseText xhr)
         end,
       State (heap_of st)
         (trace st ++
          [EvAjax url proxy [("Accept", "application/raml+yaml, */*")]
             reply]))).
  { unfold createReader. unfold bind at 1. rewrite Hproxy. fold reply.
    unfold bind, emit. cbn [fst snd heap_of trace].
    destruct reply as [xhr|]; [|done].
    destruct (truthy (reply_err xhr)); [done|].
    by destruct (negb (xhr_status xhr `div` 100 =? 2)). }
  rewrite Hrun. cbn [fst snd]. split; [done|]. intros text.
  destruct reply as [xhr|].
  2: { split; [done|]. by intros (xhr & ? & _). }
  destruct (truthy (reply_err xhr)) eqn:Herr.
  { split; [done|]. intros (xhr' & ? & ? & _). simplify_eq. congruence. }
  destruct (xhr_status xhr `div` 100 =? 2) eqn:Hstatus; cbn [negb].
  - apply Z.eqb_eq, status_2xx in Hstatus. split.
    + intros [= <-]. by exists xhr.
    + intros (xhr' & ? & _ & _ & <-). by simplify_eq.
  - apply Z.eqb_neq in Hstatus. split; [done|].
    intros (xhr' & ? & _ & Hrange & _). simplify_eq.
    by apply status_2xx in Hrange.
Qed.

Lemma createReader_one_request_witness :
  let App := sample_host 204 false in
  let reply := middleware_ajax App "http://api/x.raml" VUndefined in
  get_prop (VObject 3) "proxy" sample_state
    = (Normal VUndefined, sample_state) ∧
  ((createReader App (VObject 3) "http://api/x.raml" sample_state).1
     = Normal (Fulfilled "#%RAML 0.8") ↔
   ∃ xhr, reply = Some xhr ∧ truthy (reply_err xhr) = false ∧
          200 ≤ xhr_status xhr ≤ 299 ∧ xhr_responseText xhr = "#%RAML 0.8").
Proof.
  intros App reply. split; [reflexivity|].
  exact (proj2 (createReader_one_request App (VObject 3) "http://api/x.raml"
                  VUndefined sample_state eq_refl) "#%RAML 0.8").
Defined.

(** ** More about [authenticate] *)

Lemma calls_at_most_once_call f args : calls_at_most_once (call f args).
Proof.
  intros st. destruct (call_run f args st) as [r ->]. eexists.
  split; [done|]. unfold calls. destruct (is_function f); eauto.
Qed.

Lemma calls_at_most_once_bind {A B} (m : M A) (f : A → M B) :
  keeps_trace m → (∀ a, calls_at_most_once (f a)) →
  calls_at_most_once (bind m f).
Proof.
  intros Hm Hf st. unfold bind. specialize (Hm st).
  destruct (m st) as [[a|e] st1]; cbn [snd] in *.
  - destruct (Hf a st1) as (evs & Htrace & Hevs). exists evs.
    by rewrite Htrace, Hm.
  - exists []. rewrite app_nil_r. by split; [|left].
Qed.

Lemma calls_at_most_once_cb done clientOption a :
  calls_at_most_once (API.cb done clientOption a).
Proof.
  unfold API.cb. destruct (truthy (cb_err a)).
  { apply calls_at_most_once_call. }
  apply calls_at_most_once_bind; [apply keeps_trace_get_prop|].
  intros authentication.
  apply calls_at_most_once_bind; [apply keeps_trace_get_prop|].
  intros scheme_type.
  apply calls_at_most_once_bind; [apply keeps_trace_extend|]. intros bundle.
  apply calls_at_most_once_bind; [apply keeps_trace_set_prop|]. intros _.
  apply calls_at_most_once_call.
Qed.

(** Running [cb] for each callback of the authenticator logs calls only,
    and no more of them than there are callbacks. *)
Lemma for_each_cb_calls done clientOption (callbacks : list cb_args) : ∀ st,
  ∃ evs,
    trace (for_each callbacks
             (λ a, settle_quietly (API.cb done clientOption a)) st).2
    = trace st ++ evs ∧
    filter is_call evs = evs ∧
    (length evs ≤ length callbacks)%nat.
Proof.
  induction callbacks as [|a callbacks IH]; intros st; cbn [for_each].
  - exists []. rewrite app_nil_r. by repeat split.
  - unfold bind at 1. unfold settle_quietly at 1. cbn beta iota zeta.
    destruct (calls_at_most_once_cb done clientOption a st)
      as (evs1 & Htrace1 & Hevs1).
    destruct (IH (API.cb done clientOption a st).2)
      as (evs2 & Htrace2 & Hcalls2 & Hlen2).
    exists (evs1 ++ evs2). rewrite Htrace2, Htrace1, app_assoc.
    split; [done|]. rewrite filter_app, Hcalls2, length_app.
    destruct Hevs1 as [-> | (f & args & ->)]; cbn [length app].
    + split; [done|]. lia.
    + rewrite filter_cons, filter_nil. cbn [is_call].
      rewrite decide_True by done. split; [done|]. lia.
Qed.

(** On a client, [authenticate] hands the authenticator the client's
    [securedBy] and [securitySchemes] together with the method and the
    options it was given, and it calls the completion handle at most once
    for each time the authenticator calls back: never, if the
    authenticator never does. *)
Theorem authenticate_calls_bounded (App : host)
    (client method options done : value) (st : state) (lco : positive)
    (h : heap) (callbacks : list cb_args) (r : completion value) :
  let securedBy := default VUndefined (props_at st lco !! "securedBy") in
  let securitySchemes :=
    default VUndefined (props_at st lco !! "securitySchemes") in
  client_option (heap_of st) client = Some lco →
  authenticate App securedBy securitySchemes method options (heap_of st)
    = (h, callbacks, r) →
  ∃ evs,
    trace (API.authenticate App [client; method; options; done] st).2
      = trace st ++ evs ∧
    (length (filter is_call evs) ≤ length callbacks)%nat ∧
    EvAuthenticate securedBy securitySchemes method options callbacks ∈ evs.
Proof.
  intros securedBy securitySchemes Hc Horacle.
  rewrite (authenticate_run App [client; method; options; done] st lco Hc).
  unfold arg. cbn [nth]. fold securedBy securitySchemes.
  rewrite Horacle. cbn [fst snd].
  match goal with |- context [for_each _ _ ?s] =>
    destruct (for_each_cb_calls (completion_handle App VUndefined done)
                (VObject lco) callbacks s)
      as (evs & -> & Hcalls & Hlen) end.
  cbn [trace]. rewrite <- app_assoc. eexists. split; [done|]. split.
  - rewrite filter_app, Hcalls.
    rewrite (filter_none is_call (EvTimeout _ :: _)); [done|].
    intros e [-> | He]%elem_of_cons; [done|].
    apply elem_of_app in He as [He | ->%list_elem_of_singleton]; [|done].
    by apply async_events_plain in He as (? & _).
  - apply elem_of_app. left. right. apply elem_of_app. right. left.
Qed.

Lemma authenticate_calls_bounded_witness :
  let App := {|
    executeContext_async := 100;
    executeWindow := VObject 50;
    middleware_ajax := λ _ _, None;
    raml_parse := λ _ text, Parsed (VString text);
    clientGenerator := λ _ _ h, (Normal (VFunction 60), h);
    fromPath := λ _ _ _ h, (Normal tt, h);
    authenticate := λ _ _ _ _ h, (h, [], Normal VUndefined)
  |} in
  ∃ evs,
    trace (API.authenticate App
             [VFunction 1; VString "oauth_2_0"; VUndefined; sample_done]
             auth_state).2
      = trace auth_state ++ evs ∧
    (length (filter is_call evs) ≤ 0)%nat ∧
    EvAuthenticate VUndefined VUndefined (VString "oauth_2_0") VUndefined []
      ∈ evs.
Proof.
  intros App.
  exact (authenticate_calls_bounded App (VFunction 1)
           (VString "oauth_2_0") VUndefined sample_done auth_state 2
           auth_heap [] (Normal VUndefined) eq_refl eq_refl).
Defined.

(** When the authenticator calls back with an error, the error goes to
    the completion handle and nothing is stored: the store is left as the
    authenticator left it. *)
Theorem authenticate_error_stores_nothing (App : host)
    (client method options done : value) (st : state) (lco : positive)
    (h : heap) (a : cb_args) (r : completion value) :
  let handle := completion_handle App VUndefined done in
  let securedBy := default VUndefined (props_at st lco !! "securedBy") in
  let securitySchemes :=
    default VUndefined (props_at st lco !! "securitySchemes") in
  client_option (heap_of st) client = Some lco →
  authenticate App securedBy securitySchemes method options (heap_of st)
    = (h, [a], r) →
  is_function handle = true →
  truthy (cb_err a) = true →
  (API.authenticate App [client; method; options; done] st).2
  = State h
      (trace st ++ EvTimeout (Millis 600000) ::
         async_events App VUndefined done ++
         [EvAuthenticate securedBy securitySchemes method options [a];
          EvCall handle [cb_err a]]).
Proof.
  intros handle securedBy securitySchemes Hc Horacle Hhandle Herr.
  rewrite (authenticate_run App [client; method; options; done] st lco Hc).
  unfold arg. cbn [nth]. fold securedBy securitySchemes handle.
  rewrite Horacle. cbn [fst snd for_each].
  unfold bind at 1, settle_quietly.
  rewrite (cb_error handle _ a _ Herr Hhandle).
  unfold ret. cbn [fst snd heap_of trace].
  rewrite <- app_assoc. cbn [app]. by rewrite <- app_assoc.
Qed.

Lemma authenticate_error_stores_nothing_witness :
  let App := {|
    executeContext_async := 100;
    executeWindow := VObject 50;
    middleware_ajax := λ _ _, None;
    raml_parse := λ _ text, Parsed (VString text);
    clientGenerator := λ _ _ h, (Normal (VFunction 60), h);
    fromPath := λ _ _ _ h, (Normal tt, h);
    authenticate := λ _ _ _ _ h,
      (h, [CbArgs (VError "Cancelled") VUndefined VUndefined VUndefined],
       Normal VUndefined)
  |} in
  (API.authenticate App
     [VFunction 1; VUndefined; VUndefined; sample_done] auth_state).2
  = State auth_heap
      [EvTimeout (Millis 600000);
       EvAuthenticate VUndefined VUndefined VUndefined VUndefined
         [CbArgs (VError "Cancelled") VUndefined VUndefined VUndefined];
       EvCall sample_done [VError "Cancelled"]].
Proof.
  intros App.
  exact (authenticate_error_stores_nothing App (VFunction 1) VUndefined
           VUndefined sample_done auth_state 2 auth_heap
           (CbArgs (VError "Cancelled") VUndefined VUndefined VUndefined)
           (Normal VUndefined) eq_refl eq_refl eq_refl eq_refl).
Defined.

(** On what is not a generated client ([client['!client']] is missing),
    [authenticate] throws a [TypeError], but only after it has set the
    timeout and, if no callback was passed, taken a handle from the
    sandbox; the authenticator is not run, no callback is called and no
    object is changed. *)
Theorem authenticate_without_client (App : host) (arguments : list value)
    (st : state) :
  client_option_missing (heap_of st) (arg 0 arguments) = true →
  API.authenticate App arguments st
  = (Throw TypeError,
     State (heap_of st)
       (trace st ++ EvTimeout (Millis 600000) ::
          async_events App VUndefined (arg 3 arguments))).
Proof.
  intros Hmissing. unfold API.authenticate.
  assert (Hthrow : ∀ (handle : value) st1,
    heap_of st1 = heap_of st →
    (let* clientOption := get_prop (arg 0 arguments) "!client" in
     let* securedBy := get_prop clientOption "securedBy" in
     let* securitySchemes := get_prop clientOption "securitySchemes" in
     authenticate_call App securedBy securitySchemes (arg 1 arguments)
       (arg 2 arguments) (API.cb handle clientOption)) st1
    = (Throw TypeError, st1)).
  { intros handle st1 Hst1. unfold client_option_missing in Hmissing.
    unfold bind at 1.
    destruct (arg 0 arguments) as [| | | | | |l|l|builtin]; run_M; try done;
      [rewrite Hst1;
       by destruct ((heap_of st !!! l) !! "!client") as [[| | | | | | | |]|]..
      |unfold inherited; by repeat case_match]. }
  unfold async_events. cbn [is_function orb].
  unfold bind at 1, executeContext_timeout, emit. unfold bind at 1.
  destruct (truthy (arg 3 arguments)).
  - unfold ret at 1. by rewrite Hthrow.
  - unfold executeContext_async_call, bind at 1, emit, ret at 1.
    cbn beta iota zeta. rewrite Hthrow by done.
    cbn [heap_of trace]. by rewrite <- app_assoc.
Qed.

Lemma authenticate_without_client_witness :
  client_option_missing (heap_of sample_state) (arg 0 [sample_client]) = true ∧
  API.authenticate (sample_host 200 false) [sample_client] sample_state
  = (Throw TypeError,
     State sample_heap
       [EvTimeout (Millis 600000); EvAsync (VFunction 100)]).
Proof.
  split; [reflexivity|].
  exact (authenticate_without_client (sample_host 200 false)
           [sample_client] sample_state eq_refl).
Defined.

Lemma split_dots_path_witness :
  join_dots (split_dots "github.repos") = "github.repos" ∧
  split_dots "github" = ["github"].
Proof.
  split.
  - exact (proj1 (split_dots_path "github.repos")).
  - exact (proj2 (proj2 (split_dots_path "github")) eq_refl).
Defined.
